(** * Archive-backed static file system ([assets.go])

    A shallow embedding of [zipFS] (the index built by [newZipFS] and the
    lookups of [Open] and [dirEntries]) and of [zipHTTPFile] (the handle with
    [Read], [Seek], [Readdir] and [Stat]), together with the properties the
    specification states about them.

    Go strings are [string]; byte slices are [list Byte.byte]; Go maps are
    stdpp [gmap]s; [int] and [int64] are [Z]; a slice that may be [nil] and
    is tested against [nil] is an [option (list _)]. *)

From Stdlib Require Import ZArith Ascii String.
From Stdlib.Strings Require Import Byte.
From stdpp Require Import gmap strings list fin_maps.

Local Open Scope Z_scope.

(** ** Go values *)

(** Go's slice expression [s[i:j]] on a string. *)
Definition slice (s : string) (i j : nat) : string :=
  String.substring i (j - i) s.

(** The errors the adapter can hand to its caller. *)
Inductive error : Type :=
  | EOF                      (* io.EOF *)
  | ErrNotExist              (* os.ErrNotExist *)
  | ErrInvalid               (* os.ErrInvalid *)
  | ErrNegativePosition      (* bytes.Reader.Seek: negative position *)
  | ErrInvalidWhence         (* bytes.Reader.Seek: invalid whence *)
  | ErrArchive (msg : string) (* a failure of the archive reader *).

(** [time.Time]: instants counted from the zero value [time.Time{}]. *)
Definition Time : Type := Z.
Definition zeroTime : Time := 0.

(** Two's-complement wrap-around of [int64] arithmetic. *)
Definition wrap64 (x : Z) : Z := (x + 2 ^ 63) mod 2 ^ 64 - 2 ^ 63.

(** ** Package [strings] of the Go standard library *)

Module strings.

(** [len(s) >= len(prefix) && s[:len(prefix)] == prefix] *)
Definition HasPrefix (s prefix : string) : bool :=
  (String.length prefix <=? String.length s)%nat
  && String.eqb (slice s 0 (String.length prefix)) prefix.

(** [len(s) >= len(suffix) && s[len(s)-len(suffix):] == suffix] *)
Definition HasSuffix (s suffix : string) : bool :=
  (String.length suffix <=? String.length s)%nat
  && String.eqb
       (slice s (String.length s - String.length suffix) (String.length s))
       suffix.

Definition TrimPrefix (s prefix : string) : string :=
  if HasPrefix s prefix
  then slice s (String.length prefix) (String.length s)
  else s.

Definition TrimSuffix (s suffix : string) : string :=
  if HasSuffix s suffix
  then slice s 0 (String.length s - String.length suffix)
  else s.

(** Index of the last occurrence of the byte [c], or [-1]. *)
Fixpoint lastIndexFrom (s : string) (c : ascii) (pos last : Z) : Z :=
  match s with
  | EmptyString => last
  | String d s' =>
      lastIndexFrom s' c (pos + 1) (if Ascii.eqb d c then pos else last)
  end.

Definition LastIndexByte (s : string) (c : ascii) : Z :=
  lastIndexFrom s c 0 (-1).

End strings.

(** ** Package [path] of the Go standard library

    [Clean] is given by the rules of its documentation, applied to the
    slash-separated elements of the path: empty and [.] elements vanish, a
    [..] removes the element before it when there is one that is not itself
    [..], a [..] that cannot be removed stays in a relative path and
    vanishes in a rooted one, and the empty result is [.]. *)

Module path.

(** The pieces of [s] between slashes; never the empty list. *)
Fixpoint elements (s : string) : list string :=
  match s with
  | EmptyString => [EmptyString]
  | String c s' =>
      if Ascii.eqb c "/" then EmptyString :: elements s'
      else match elements s' with
           | h :: t => String c h :: t
           | [] => [String c EmptyString]
           end
  end.

(** One element seen by [Clean]; [out] holds the elements written so far,
    the last one first. *)
Definition cleanStep (rooted : bool) (out : list string) (e : string)
  : list string :=
  if String.eqb e "" || String.eqb e "." then out
  else if String.eqb e ".." then
    match out with
    | top :: rest =>
        if String.eqb top ".." then (if rooted then out else e :: out)
        else rest
    | [] => if rooted then [] else [e]
    end
  else e :: out.

Fixpoint joinElements (l : list string) : string :=
  match l with
  | [] => ""
  | [e] => e
  | e :: l' => e +:+ "/" +:+ joinElements l'
  end.

Definition cleanElements (rooted : bool) (p : string) : list string :=
  rev (fold_left (cleanStep rooted) (elements p) []).

Definition Clean (p : string) : string :=
  if String.eqb p "" then "."
  else
    let rooted := strings.HasPrefix p "/" in
    let body := joinElements (cleanElements rooted p) in
    let out := if rooted then "/" +:+ body else body in
    if String.eqb out "" then "." else out.

(** [Split]: the path up to and including its last slash, and the rest. *)
Definition Split (p : string) : string * string :=
  let i := strings.LastIndexByte p "/" in
  (slice p 0 (Z.to_nat (i + 1)),
   slice p (Z.to_nat (i + 1)) (String.length p)).

Definition Dir (p : string) : string := Clean (fst (Split p)).

(** The loop of [Base] that drops trailing slashes. *)
Fixpoint stripTrailingSlashes (s : string) : string :=
  match s with
  | EmptyString => EmptyString
  | String c s' =>
      match stripTrailingSlashes s' with
      | EmptyString => if Ascii.eqb c "/" then "" else String c ""
      | t => String c t
      end
  end.

Definition Base (p : string) : string :=
  if String.eqb p "" then "."
  else
    let p1 := stripTrailingSlashes p in
    let i := strings.LastIndexByte p1 "/" in
    let p2 := if 0 <=? i then slice p1 (Z.to_nat (i + 1)) (String.length p1)
              else p1 in
    if String.eqb p2 "" then "/" else p2.

(** [Join]: the non-empty leading elements are skipped, the rest are
    glued with slashes and cleaned. *)
Definition joinStep (buf e : string) : string :=
  if (0 <? String.length buf)%nat || negb (String.eqb e "") then
    (if (0 <? String.length buf)%nat then buf +:+ "/" else buf) +:+ e
  else buf.

Definition Join (elem : list string) : string :=
  if (foldr (fun e n => String.length e + n)%nat 0%nat elem =? 0)%nat then ""
  else Clean (fold_left joinStep elem "").

End path.

(** ** Package [bytes]: the reader over a byte slice *)

Module bytes.

Record Reader : Type := mkReader { s : list byte; i : Z }.

Definition NewReader (b : list byte) : Reader := mkReader b 0.

(** [Read] into a buffer of [n] bytes: the bytes copied, the error, and
    the reader afterwards. *)
Definition Read (r : Reader) (n : nat)
  : (list byte * option error) * Reader :=
  if Z.of_nat (length (s r)) <=? i r then (([], Some EOF), r)
  else
    let chunk := take n (drop (Z.to_nat (i r)) (s r)) in
    ((chunk, None), mkReader (s r) (i r + Z.of_nat (length chunk))).

(** [io.SeekStart], [io.SeekCurrent] and [io.SeekEnd] are 0, 1 and 2. *)
Definition Seek (r : Reader) (offset whence : Z)
  : (Z * option error) * Reader :=
  let abs :=
    if whence =? 0 then Some offset
    else if whence =? 1 then Some (wrap64 (i r + offset))
    else if whence =? 2 then Some (wrap64 (Z.of_nat (length (s r)) + offset))
    else None in
  match abs with
  | None => ((0, Some ErrInvalidWhence), r)
  | Some abs =>
      if abs <? 0 then ((0, Some ErrNegativePosition), r)
      else ((abs, None), mkReader (s r) abs)
  end.

End bytes.

(** ** Archive members ([zip.File]) *)

Module zip.

(** What the adapter uses of a member: its name, whether its header
    describes a directory, the header's size and time, and what opening
    and draining its content gives. *)
Record File : Type := mkFile {
  Name : string;
  IsDir : bool;                (* f.FileInfo().IsDir() *)
  UncompressedSize64 : Z;
  Modified : Time;
  openErr : option error;      (* the error of f.Open(), if any *)
  body : list byte;            (* the decompressed content *)
  copyErr : option error       (* the error of draining it, if any *)
}.

End zip.

(** ** [zipFileInfo] and the [os.FileInfo] interface *)

Module zipFileInfo.

Record t : Type := mk {
  name : string;
  isDir : bool;
  modTime : Time;
  size : Z
}.

End zipFileInfo.

(** The two implementations of [os.FileInfo] the adapter hands out: the
    archive header's own, and [*zipFileInfo]. *)
Inductive FileInfo : Type :=
  | HeaderInfo (f : zip.File)       (* f.FileHeader.FileInfo() *)
  | InfoPtr (fi : zipFileInfo.t)    (* &zipFileInfo{...} *).

Definition fiName (x : FileInfo) : string :=
  match x with
  | HeaderInfo f => path.Base (zip.Name f)
  | InfoPtr fi => zipFileInfo.name fi
  end.

Definition fiSize (x : FileInfo) : Z :=
  match x with
  | HeaderInfo f => zip.UncompressedSize64 f
  | InfoPtr fi => zipFileInfo.size fi
  end.

Definition fiModTime (x : FileInfo) : Time :=
  match x with
  | HeaderInfo f => zip.Modified f
  | InfoPtr fi => zipFileInfo.modTime fi
  end.

Definition fiIsDir (x : FileInfo) : bool :=
  match x with
  | HeaderInfo f => zip.IsDir f
  | InfoPtr fi => zipFileInfo.isDir fi
  end.

(** ** The index: [zipFS] and [newZipFS] *)

Record zipFS : Type := mkZipFS {
  files : gmap string zip.File;
  dirs : gmap string (list string)
}.

(** The name under which [newZipFS] files a member. *)
Definition entryName (f : zip.File) : string :=
  strings.TrimPrefix (strings.TrimPrefix (path.Clean (zip.Name f)) "./") "/".

(** The key of [dirs] for the directory [dir] in the ancestor loop. *)
Definition ancestorKey (dir : string) : string :=
  if negb (String.eqb dir "")
  then strings.TrimSuffix (strings.TrimPrefix dir "/") "/" +:+ "/"
  else "".

(** [path.Dir] followed by [if dir == "." { dir = "" }]. *)
Definition parentDir (p : string) : string :=
  let dir := path.Dir p in
  if String.eqb dir "." then "" else dir.

(** The loop [for { ... }] of [newZipFS] that walks from [dir] to the root;
    [fuel] bounds the number of iterations. *)
Fixpoint populate (fuel : nat) (name dir : string)
    (d : gmap string (list string)) : option (gmap string (list string)) :=
  match fuel with
  | O => None
  | S fuel' =>
      let key := ancestorKey dir in
      let d' := <[key := default [] (d !! key) ++ [path.Base name]]> d in
      if String.eqb dir "" || String.eqb dir "." || String.eqb dir "/"
      then Some d'
      else populate fuel' name (parentDir dir) d'
  end.

(** The body of the loop over [r.File]. *)
Definition addEntry (z : zipFS) (f : zip.File) : option zipFS :=
  let name := entryName f in
  if zip.IsDir f then
    let dir := strings.TrimSuffix name "/" +:+ "/" in
    Some (mkZipFS (files z) (<[dir := []]> (dirs z)))
  else
    d' ← populate (S (String.length name)) name (parentDir name) (dirs z);
    Some (mkZipFS (<[name := f]> (files z)) d').

Fixpoint addEntries (z : zipFS) (r : list zip.File) : option zipFS :=
  match r with
  | [] => Some z
  | f :: r' => z' ← addEntry z f; addEntries z' r'
  end.

Definition newZipFS (r : list zip.File) : option zipFS :=
  addEntries (mkZipFS ∅ ∅) r.

(** ** The handle: [zipHTTPFile] *)

Module zipHTTPFile.

Record t : Type := mk {
  isDir : bool;
  name : string;
  data : list byte;
  rdr : option bytes.Reader;           (* nil until first used *)
  fi : option FileInfo;                (* nil for directories *)
  entries : option (list FileInfo)     (* nil for files *)
}.

Definition with_rdr (f : t) (r : bytes.Reader) : t :=
  mk (isDir f) (name f) (data f) (Some r) (fi f) (entries f).

Definition with_entries (f : t) (es : list FileInfo) : t :=
  mk (isDir f) (name f) (data f) (rdr f) (fi f) (Some es).

(** [if f.rdr == nil { f.rdr = bytes.NewReader(f.data) }] *)
Definition reader (f : t) : bytes.Reader :=
  match rdr f with
  | Some r => r
  | None => bytes.NewReader (data f)
  end.

Definition Close (f : t) : option error := None.

Definition Read (f : t) (n : nat) : (list byte * option error) * t :=
  if isDir f then (([], Some EOF), f)
  else
    let '(res, r') := bytes.Read (reader f) n in
    (res, with_rdr f r').

Definition Seek (f : t) (offset whence : Z) : (Z * option error) * t :=
  if isDir f then ((0, Some EOF), f)
  else
    let '(res, r') := bytes.Seek (reader f) offset whence in
    (res, with_rdr f r').

Definition Readdir (f : t) (count : Z)
  : (option (list FileInfo) * option error) * t :=
  if negb (isDir f) then ((None, Some ErrInvalid), f)
  else match entries f with
       | None => ((None, None), f)
       | Some es =>
           if (count <=? 0) || (Z.of_nat (length es) <=? count)
           then ((Some es, None), f)
           else
             let res := take (Z.to_nat count) es in
             ((Some res, None), with_entries f (drop (Z.to_nat count) es))
       end.

Definition Stat (f : t) : option FileInfo * option error :=
  if isDir f then
    (Some (InfoPtr (zipFileInfo.mk
                      (path.Base (strings.TrimSuffix (name f) "/"))
                      true zeroTime 0)), None)
  else match fi f with
       | Some x => (Some x, None)
       | None =>
           (Some (InfoPtr (zipFileInfo.mk (name f) false zeroTime
                             (Z.of_nat (length (data f))))), None)
       end.

End zipHTTPFile.

(** ** Lookups: [dirEntries] and [Open] *)

(** The entry [dirEntries] appends for the child name [n] of [dirKey]. *)
Definition dirEntry (z : zipFS) (dirKey n : string) : FileInfo :=
  let full :=
    strings.TrimPrefix (path.Join [strings.TrimSuffix dirKey "/"; n]) "/" in
  match files z !! full with
  | Some f => HeaderInfo f
  | None => InfoPtr (zipFileInfo.mk n true zeroTime 0)
  end.

Definition dirEntries (z : zipFS) (dirKey : string) : list FileInfo :=
  match dirs z !! dirKey with
  | None => []
  | Some names => map (dirEntry z dirKey) names
  end.

Definition dirHandle (z : zipFS) (dirKey : string) : zipHTTPFile.t :=
  zipHTTPFile.mk true dirKey [] None None (Some (dirEntries z dirKey)).

(** The normalisation at the head of [Open]. *)
Definition openName (name : string) : string :=
  strings.TrimPrefix (path.Clean name) "/".

Definition Open (z : zipFS) (name0 : string) : error + zipHTTPFile.t :=
  let name := openName name0 in
  if String.eqb name "." || String.eqb name "" then inr (dirHandle z "")
  else if strings.HasSuffix name "/" then
    inr (dirHandle z (strings.TrimSuffix name "/" +:+ "/"))
  else
    match files z !! name with
    | Some f =>
        match zip.openErr f with
        | Some err => inl err
        | None =>
            match zip.copyErr f with
            | Some err => inl err
            | None =>
                inr (zipHTTPFile.mk false (path.Base name) (zip.body f) None
                       (Some (HeaderInfo f)) None)
            end
        end
    | None =>
        let dirKey := strings.TrimSuffix name "/" +:+ "/" in
        match dirs z !! dirKey with
        | Some _ => inr (dirHandle z dirKey)
        | None => inl ErrNotExist
        end
    end.

(** ** Callers of the handle

    The two loops a caller runs over a handle: reading a file to its end
    (as [io.ReadAll] does) and listing a directory page by page until a
    page comes back empty. [fuel] bounds the number of calls. *)

Fixpoint readAll (fuel n : nat) (f : zipHTTPFile.t) (acc : list byte)
    : option ((list byte * option error) * zipHTTPFile.t) :=
  match fuel with
  | O => None
  | S fuel' =>
      let '((chunk, err), f') := zipHTTPFile.Read f n in
      match err with
      | Some EOF => Some ((acc ++ chunk, None), f')
      | Some e => Some ((acc ++ chunk, Some e), f')
      | None => readAll fuel' n f' (acc ++ chunk)
      end
  end.

Fixpoint listPages (fuel : nat) (k : Z) (f : zipHTTPFile.t)
    : option (list (list FileInfo)) :=
  match fuel with
  | O => None
  | S fuel' =>
      let '((page, _), f') := zipHTTPFile.Readdir f k in
      match page with
      | None | Some [] => Some []
      | Some es => pages ← listPages fuel' k f'; Some (es :: pages)
      end
  end.

(** The pages of the first [n] calls of [Readdir(k)]. *)
Fixpoint firstPages (n : nat) (k : Z) (f : zipHTTPFile.t)
    : list (option (list FileInfo)) :=
  match n with
  | O => []
  | S n' =>
      let '((page, _), f') := zipHTTPFile.Readdir f k in
      page :: firstPages n' k f'
  end.

(** ** Auxiliary notions on strings *)

Fixpoint endsWithSlash (s : string) : bool :=
  match s with
  | EmptyString => false
  | String c EmptyString => Ascii.eqb c "/"
  | String _ s' => endsWithSlash s'
  end.

Fixpoint dropLast (s : string) : string :=
  match s with
  | EmptyString => EmptyString
  | String c EmptyString => EmptyString
  | String c s' => String c (dropLast s')
  end.

Fixpoint hasSlash (s : string) : bool :=
  match s with
  | EmptyString => false
  | String c s' => Ascii.eqb c "/" || hasSlash s'
  end.

(** A path element as [Clean] writes it: not empty, not [.], no slash
    inside. *)
Definition element (e : string) : Prop :=
  e ≠ "" ∧ e ≠ "." ∧ hasSlash e = false.

(** The part of a path up to and including its last slash. *)
Fixpoint dirPrefix (s : string) : string :=
  match s with
  | EmptyString => EmptyString
  | String c s' => if hasSlash s then String c (dirPrefix s') else EmptyString
  end.

(** The room a list of elements takes when each is followed by a slash. *)
Definition weight (l : list string) : nat :=
  foldr (λ e n, S (String.length e) + n)%nat 0%nat l.

(** The same, empty elements not counted. *)
Definition realWeight (l : list string) : nat :=
  foldr (λ e n, (if String.eqb e "" then 0 else S (String.length e)) + n)%nat
        0%nat l.

Definition empties (l : list string) : nat :=
  length (filter (λ e, e = "") l).

(** The handle of a successful [Open]. *)
Definition opened (r : error + zipHTTPFile.t) : option zipHTTPFile.t :=
  match r with inr h => Some h | inl _ => None end.

(** ** Sample archives *)

Definition sampleTime : Time := 1700000000.

Definition fileMember (name : string) (content : list byte) : zip.File :=
  zip.mkFile name false (Z.of_nat (length content)) sampleTime
             None content None.

Definition dirMember (name : string) : zip.File :=
  zip.mkFile name true 0 sampleTime None [] None.

Definition hello : list byte := [x68; x65; x6c; x6c; x6f]%byte.

(** The index of the archive that holds the one file [a/b.txt]. *)
Definition sampleFS : zipFS :=
  mkZipFS {[ "a/b.txt" := fileMember "a/b.txt" hello ]}
          (<["" := ["b.txt"]]> {[ "a/" := ["b.txt"] ]}).

(** A handle on an empty regular file. *)
Definition emptyFile : zipHTTPFile.t :=
  zipHTTPFile.mk false "empty" [] None None None.

(** ** Notions for the further properties *)

(** One call of a method of [zipHTTPFile] by the holder of a handle. *)
Inductive call : Type :=
  | CallRead (n : nat)
  | CallSeek (offset whence : Z)
  | CallReaddir (count : Z)
  | CallStat
  | CallClose.

(** The handle after a call; [Stat] and [Close] assign nothing. *)
Definition afterCall (f : zipHTTPFile.t) (c : call) : zipHTTPFile.t :=
  match c with
  | CallRead n => snd (zipHTTPFile.Read f n)
  | CallSeek offset whence => snd (zipHTTPFile.Seek f offset whence)
  | CallReaddir count => snd (zipHTTPFile.Readdir f count)
  | CallStat | CallClose => f
  end.

Definition afterCalls (f : zipHTTPFile.t) (cs : list call) : zipHTTPFile.t :=
  foldl afterCall f cs.

(** The key of [dirs] that [newZipFS] assigns for a directory member. *)
Definition directoryKey (f : zip.File) : string :=
  strings.TrimSuffix (entryName f) "/" +:+ "/".

(** The directories the ancestor loop visits when it starts at [dir], in
    the order of the visits. *)
Fixpoint ancestors (fuel : nat) (dir : string) : list string :=
  match fuel with
  | O => []
  | S fuel' =>
      dir :: (if String.eqb dir "" || String.eqb dir "." || String.eqb dir "/"
              then []
              else ancestors fuel' (parentDir dir))
  end.

(** An element that names something: a path element other than [..]. *)
Definition realElement (e : string) : Prop := element e ∧ e ≠ "..".

(** The elements of a cleaned path: some [..] first, names after them. *)
Definition cleanShape (l : list string) : Prop :=
  ∃ k reals, l = replicate k ".." ++ reals ∧ Forall realElement reals.

(** The same shape on the elements written so far, the last one first. *)
Definition outShape (out : list string) : Prop :=
  ∃ k reals, out = reals ++ replicate k ".." ∧ Forall realElement reals.

(** A member of the archive accounts for the key [k] of [dirs]. *)
Definition keyOrigin (r : list zip.File) (k : string) : Prop :=
  (∃ g, g ∈ r ∧ zip.IsDir g = true ∧ directoryKey g = k)
  ∨ (∃ f a, f ∈ r ∧ zip.IsDir f = false
            ∧ a ∈ ancestors (S (String.length (entryName f)))
                            (parentDir (entryName f))
            ∧ ancestorKey a = k).

(** ** The methods of [zipFileInfo]

    [os.FileMode] is a 32-bit word: [os.ModeDir] is its top bit and
    [os.ModePerm] the nine permission bits [0777]. *)

Definition ModeDir : Z := Z.shiftl 1 31.
Definition ModePerm : Z := 511.

(** [m.IsDir()] and [m.Perm()] of [os.FileMode]. *)
Definition FileMode_IsDir (m : Z) : bool := negb (Z.land m ModeDir =? 0).
Definition FileMode_Perm (m : Z) : Z := Z.land m ModePerm.

Module ZipFileInfo.

Definition Name (z : zipFileInfo.t) : string := zipFileInfo.name z.
Definition Size (z : zipFileInfo.t) : Z := zipFileInfo.size z.
(** [os.ModeDir | 0555] for a directory, [0444] otherwise. *)
Definition Mode (z : zipFileInfo.t) : Z :=
  if zipFileInfo.isDir z then Z.lor ModeDir 365 else 292.
Definition ModTime (z : zipFileInfo.t) : Time := zipFileInfo.modTime z.
Definition IsDir (z : zipFileInfo.t) : bool := zipFileInfo.isDir z.
Definition Sys (z : zipFileInfo.t) : option unit := None.

End ZipFileInfo.

(** ** The library model on the library's documented cases *)

Example Clean_documented_cases :
  map path.Clean
    [""; "abc"; "a/b/c"; "."; ".."; "../../abc"; "/abc"; "/";
     "abc/"; "./"; "../../"; "/abc/"; "abc//def//ghi"; "///abc"; "//abc//";
     "abc/./def"; "/./abc/def"; "abc/."; "abc/def/ghi/../jkl";
     "abc/def/../ghi/../jkl"; "abc/def/.."; "abc/def/../..";
     "/abc/def/../..";
     "abc/def/../../.."; "/abc/def/../../..";
     "abc/def/../../../ghi/jkl/../../../mno"; "abc/./../def";
     "abc/../../././../def"]
  = ["."; "abc"; "a/b/c"; "."; ".."; "../../abc"; "/abc"; "/";
     "abc"; "."; "../.."; "/abc"; "abc/def/ghi"; "/abc"; "/abc";
     "abc/def"; "/abc/def"; "abc"; "abc/def/jkl";
     "abc/jkl"; "abc"; "."; "/";
     ".."; "/";
     "../../mno"; "def";
     "../../def"].
Proof. reflexivity. Qed.

Example Dir_documented_cases :
  map path.Dir [""; "abc"; "abc/def"; "a/b/.x"; "a/b/c."; "a/b/c.x";
                "/a/b"; "/a/"; "a/"; "/"; "abc/."; "abc///def"]
  = ["."; "."; "abc"; "a/b"; "a/b"; "a/b"; "/a"; "/a"; "a"; "/"; "abc"; "abc"].
Proof. reflexivity. Qed.

Example Base_documented_cases :
  map path.Base [""; "."; "/."; "/"; "////"; "x/"; "abc"; "abc/def";
                 "a/b/.x"; "a/b/c."; "a/b/c.x"]
  = ["."; "."; "."; "/"; "/"; "x"; "abc"; "def"; ".x"; "c."; "c.x"].
Proof. reflexivity. Qed.

Example Join_documented_cases :
  map path.Join [[]; [""]; ["a"]; ["a"; "b"]; ["a"; ""]; [""; "b"];
                 ["/"; "a"]; ["/"; ""]; ["a/"; "b"]; ["a/"; ""]; [""; ""];
                 ["a"; "b/c"]; ["a/b"; "../../../xyz"]]
  = [""; ""; "a"; "a/b"; "a"; "b"; "/a"; "/"; "a/b"; "a"; "";
     "a/b/c"; "../xyz"].
Proof. reflexivity. Qed.

Example Trim_cases :
  (strings.TrimPrefix "./a/b" "./", strings.TrimPrefix "/a" "/",
   strings.TrimPrefix "a/b" "/", strings.TrimSuffix "a/b/" "/",
   strings.TrimSuffix "a/b" "/", strings.TrimSuffix "" "/",
   strings.HasSuffix "a/" "/", strings.HasSuffix "/" "/",
   strings.HasSuffix "" "/")
  = ("a/b", "a", "a/b", "a/b", "a/b", "", true, true, false).
Proof. reflexivity. Qed.

(** ** Facts about the string operations *)

Lemma substring_0_0 s : String.substring 0 0 s = "".
Proof. by destruct s. Qed.

Lemma substring_all s : String.substring 0 (String.length s) s = s.
Proof. induction s as [|c s IH]; simpl; [done | by rewrite IH]. Qed.

Lemma substring_last s c :
  String.substring (String.length s) 1 (s +:+ String c "") = String c "".
Proof. induction s as [|d s IH]; simpl; [done | exact IH]. Qed.

Lemma substring_init s c :
  String.substring 0 (String.length s) (s +:+ String c "") = s.
Proof. induction s as [|d s IH]; simpl; [done | by rewrite IH]. Qed.

Lemma string_snoc_inv s :
  s = "" ∨ ∃ s' c, s = s' +:+ String c "".
Proof.
  induction s as [|d s IH]; [by left | right].
  destruct IH as [-> | (s' & c & ->)].
  - by exists "", d.
  - by exists (String d s'), c.
Qed.

Lemma length_snoc s c : String.length (s +:+ String c "") = S (String.length s).
Proof. induction s as [|d s IH]; simpl; [done | by rewrite IH]. Qed.

Lemma endsWithSlash_snoc s c : endsWithSlash (s +:+ String c "") = Ascii.eqb c "/".
Proof.
  induction s as [|d s IH]; simpl; [done |].
  rewrite IH. by destruct s.
Qed.

Lemma dropLast_snoc s c : dropLast (s +:+ String c "") = s.
Proof.
  induction s as [|d s IH]; simpl; [done |].
  rewrite IH. by destruct s.
Qed.

Lemma HasSuffix_slash s : strings.HasSuffix s "/" = endsWithSlash s.
Proof.
  destruct (string_snoc_inv s) as [-> | (s' & c & ->)]; [done |].
  rewrite endsWithSlash_snoc. unfold strings.HasSuffix, slice.
  rewrite length_snoc. simpl String.length.
  replace (S (String.length s') - 1)%nat with (String.length s') by lia.
  replace (S (String.length s') - String.length s')%nat with 1%nat by lia.
  rewrite substring_last. simpl. by destruct (Ascii.eqb c "/").
Qed.

Lemma TrimSuffix_slash s :
  strings.TrimSuffix s "/" = if endsWithSlash s then dropLast s else s.
Proof.
  unfold strings.TrimSuffix. rewrite HasSuffix_slash.
  destruct (string_snoc_inv s) as [-> | (s' & c & ->)]; [done |].
  rewrite endsWithSlash_snoc, dropLast_snoc.
  destruct (Ascii.eqb c "/"); [| done].
  unfold slice. rewrite length_snoc. simpl String.length.
  replace (S (String.length s') - 1 - 0)%nat with (String.length s') by lia.
  apply substring_init.
Qed.

Lemma HasPrefix_slash c s :
  strings.HasPrefix (String c s) "/" = Ascii.eqb c "/".
Proof.
  unfold strings.HasPrefix, slice. simpl. rewrite substring_0_0.
  simpl. by destruct (Ascii.eqb c "/").
Qed.

Lemma TrimPrefix_slash c s :
  strings.TrimPrefix (String c s) "/"
  = if Ascii.eqb c "/" then s else String c s.
Proof.
  unfold strings.TrimPrefix. rewrite HasPrefix_slash.
  destruct (Ascii.eqb c "/"); [| done].
  unfold slice. simpl. rewrite Nat.sub_0_r. apply substring_all.
Qed.

(** *** [path.Clean] ignores one more slash at the end *)

Lemma elements_nonempty s : path.elements s ≠ [].
Proof.
  induction s as [|c s IH]; simpl; [done |].
  destruct (Ascii.eqb c "/"); [done |]. by destruct (path.elements s).
Qed.

Lemma elements_app_slash s :
  path.elements (s +:+ "/") = path.elements s ++ [""].
Proof.
  induction s as [|c s IH]; simpl; [done |]. rewrite IH.
  destruct (Ascii.eqb c "/"); [done |].
  pose proof (elements_nonempty s) as Hne.
  by destruct (path.elements s).
Qed.

Lemma cleanElements_app_slash rooted p :
  path.cleanElements rooted (p +:+ "/") = path.cleanElements rooted p.
Proof.
  unfold path.cleanElements. by rewrite elements_app_slash, fold_left_app.
Qed.

Lemma Clean_app_slash p : p ≠ "" → path.Clean (p +:+ "/") = path.Clean p.
Proof.
  destruct p as [|c p]; [done | intros _].
  unfold path.Clean. rewrite cleanElements_app_slash.
  change (String c p +:+ "/") with (String c (p +:+ "/")).
  by rewrite !HasPrefix_slash.
Qed.

(** *** The shape of what [path.Clean] returns *)

Lemma elements_hasSlash s : Forall (λ e, hasSlash e = false) (path.elements s).
Proof.
  induction s as [|c s IH]; simpl; [by repeat constructor |].
  destruct (Ascii.eqb c "/") eqn:Hc; [by constructor |].
  destruct (path.elements s) as [|h t]; [by repeat constructor; simpl; rewrite Hc |].
  inversion IH; subst. constructor; [simpl; by rewrite Hc | done].
Qed.

Lemma cleanStep_element rooted out e :
  hasSlash e = false → Forall element out →
  Forall element (path.cleanStep rooted out e).
Proof.
  intros He Hout. unfold path.cleanStep.
  destruct (String.eqb e "") eqn:E1; [done |].
  destruct (String.eqb e ".") eqn:E2; [done |]. simpl.
  assert (element e) as Hel.
  { split; [by intros -> | split; [by intros -> | done]]. }
  destruct (String.eqb e "..") eqn:E3; [| by constructor].
  destruct out as [|top rest].
  - destruct rooted; [done | by constructor].
  - destruct (String.eqb top "..").
    + destruct rooted; [done | by constructor].
    + by inversion Hout.
Qed.

Lemma fold_cleanStep_element rooted l out :
  Forall (λ e, hasSlash e = false) l → Forall element out →
  Forall element (fold_left (path.cleanStep rooted) l out).
Proof.
  revert out. induction l as [|e l IH]; intros out Hl Hout; simpl; [done |].
  inversion Hl; subst. apply IH; [done |]. by apply cleanStep_element.
Qed.

Lemma cleanElements_element rooted p :
  Forall element (path.cleanElements rooted p).
Proof.
  unfold path.cleanElements. apply Forall_rev.
  apply fold_cleanStep_element; [apply elements_hasSlash | constructor].
Qed.

Lemma endsWithSlash_app a b :
  b ≠ "" → endsWithSlash (a +:+ b) = endsWithSlash b.
Proof.
  intros Hb. induction a as [|c a IH]; simpl; [done |].
  rewrite IH. destruct (a +:+ b) eqn:E; [| done].
  destruct a; simpl in E; [done | discriminate].
Qed.

Lemma element_endsWithSlash e : hasSlash e = false → endsWithSlash e = false.
Proof.
  induction e as [|c e IH]; simpl; [done |].
  intros [Hc He]%orb_false_iff. destruct e; [done | by apply IH].
Qed.

Lemma joinElements_cons e l :
  path.joinElements (e :: l)
  = match l with [] => e | _ => e +:+ "/" +:+ path.joinElements l end.
Proof. by destruct l. Qed.

Lemma joinElements_shape l :
  Forall element l → l ≠ [] →
  endsWithSlash (path.joinElements l) = false
  ∧ ∃ c s, path.joinElements l = String c s ∧ Ascii.eqb c "/" = false.
Proof.
  induction l as [|e l IH]; [done | intros Hl _].
  inversion Hl as [|? ? (Hne & _ & Hsl) Hl']; subst.
  rewrite joinElements_cons. destruct l as [|e' l].
  - split; [by apply element_endsWithSlash |].
    destruct e as [|c e]; [done |]. simpl in Hsl.
    apply orb_false_iff in Hsl as [Hc _]. by exists c, e.
  - destruct (IH Hl' ltac:(done)) as [Hend (c' & s' & Heq & Hc')].
    cbv beta iota. rewrite Heq in *. split.
    + rewrite endsWithSlash_app; [| done]. exact Hend.
    + destruct e as [|c e]; [done |]. simpl in Hsl.
      apply orb_false_iff in Hsl as [Hc _]. by eexists c, _.
Qed.

Lemma append_slash b : "/" +:+ b = String "/" b.
Proof. reflexivity. Qed.

Lemma openName_no_trailing_slash p :
  strings.HasSuffix (openName p) "/" = false.
Proof.
  rewrite HasSuffix_slash. unfold openName, path.Clean.
  destruct (String.eqb p "") eqn:Hp; [done |].
  pose proof (cleanElements_element (strings.HasPrefix p "/") p) as Hel.
  destruct (strings.HasPrefix p "/").
  - rewrite !append_slash. cbn [String.eqb Ascii.eqb].
    rewrite TrimPrefix_slash. change (Ascii.eqb "/" "/") with true. cbv iota.
    destruct (path.cleanElements true p) as [|e l] eqn:El; [done |].
    by apply joinElements_shape.
  - destruct (path.cleanElements false p) as [|e l] eqn:El; [done |].
    destruct (joinElements_shape (e :: l) Hel ltac:(done))
      as [Hend (c & s & Heq & Hc)].
    rewrite Heq in *. cbn [String.eqb]. rewrite TrimPrefix_slash, Hc. done.
Qed.

(** ** Opening a path *)

Lemma stripTrailingSlashes_app_slash s :
  path.stripTrailingSlashes (s +:+ "/") = path.stripTrailingSlashes s.
Proof. induction s as [|c s IH]; simpl; [done | by rewrite IH]. Qed.

Lemma String_eqb_app_slash s : String.eqb (s +:+ "/") "" = false.
Proof. by destruct s. Qed.

Lemma Base_app_slash s : s ≠ "" → path.Base (s +:+ "/") = path.Base s.
Proof.
  intros Hs. unfold path.Base.
  rewrite String_eqb_app_slash, stripTrailingSlashes_app_slash.
  by destruct s.
Qed.

Lemma endsWithSlash_inv s :
  endsWithSlash s = true → ∃ s', s = s' +:+ "/".
Proof.
  destruct (string_snoc_inv s) as [-> | (s' & c & ->)]; [done |].
  rewrite endsWithSlash_snoc. intros Hc%Ascii.eqb_eq. subst. by exists s'.
Qed.

Lemma Base_TrimSuffix k :
  k ≠ "/" → path.Base (strings.TrimSuffix k "/") = path.Base k.
Proof.
  intros Hk. rewrite TrimSuffix_slash.
  destruct (endsWithSlash k) eqn:E; [| done].
  apply endsWithSlash_inv in E as [s' ->].
  rewrite dropLast_snoc. symmetry. apply Base_app_slash. by intros ->.
Qed.

Lemma Open_unfold z p :
  Open z p =
  let name := openName p in
  if String.eqb name "." || String.eqb name "" then inr (dirHandle z "")
  else
    match files z !! name with
    | Some f =>
        match zip.openErr f with
        | Some err => inl err
        | None =>
            match zip.copyErr f with
            | Some err => inl err
            | None =>
                inr (zipHTTPFile.mk false (path.Base name) (zip.body f) None
                       (Some (HeaderInfo f)) None)
            end
        end
    | None =>
        match dirs z !! (name +:+ "/") with
        | Some _ => inr (dirHandle z (name +:+ "/"))
        | None => inl ErrNotExist
        end
    end.
Proof.
  unfold Open. cbv zeta.
  pose proof (openName_no_trailing_slash p) as Hs.
  unfold strings.TrimSuffix. rewrite Hs. done.
Qed.

Lemma eqb_root_false n :
  n ≠ "" → n ≠ "." → String.eqb n "." || String.eqb n "" = false.
Proof.
  intros H1 H2. apply orb_false_iff.
  split; apply String.eqb_neq; done.
Qed.

(** ** Listing a directory *)

Lemma Readdir_all f es count :
  zipHTTPFile.isDir f = true → zipHTTPFile.entries f = Some es →
  count <= 0 ∨ Z.of_nat (length es) <= count →
  zipHTTPFile.Readdir f count = ((Some es, None), f).
Proof.
  intros Hd He Hc. unfold zipHTTPFile.Readdir. rewrite Hd, He. simpl.
  destruct (count <=? 0) eqn:E1; [done |].
  destruct (Z.of_nat (length es) <=? count) eqn:E2; [done | lia].
Qed.

Lemma Readdir_some f es count :
  zipHTTPFile.isDir f = true → zipHTTPFile.entries f = Some es →
  0 < count < Z.of_nat (length es) →
  zipHTTPFile.Readdir f count
  = ((Some (take (Z.to_nat count) es), None),
     zipHTTPFile.with_entries f (drop (Z.to_nat count) es)).
Proof.
  intros Hd He Hc. unfold zipHTTPFile.Readdir. rewrite Hd, He. simpl.
  destruct (count <=? 0) eqn:E1; [lia |].
  destruct (Z.of_nat (length es) <=? count) eqn:E2; [lia | done].
Qed.

(** ** Reading a file handle *)

Lemma readAll_from (fuel n : nat) (f : zipHTTPFile.t) b (q : nat) acc :
  zipHTTPFile.isDir f = false →
  zipHTTPFile.rdr f = Some (bytes.mkReader b (Z.of_nat q)) →
  (q ≤ length b)%nat → (0 < n)%nat → (length b - q < fuel)%nat →
  ∃ f', readAll fuel n f acc = Some ((acc ++ drop q b, None), f').
Proof.
  revert f q acc. induction fuel as [|fuel IH]; intros f q acc Hd Hr Hq Hn Hf;
    [lia |].
  simpl. unfold zipHTTPFile.Read, zipHTTPFile.reader. rewrite Hd, Hr.
  unfold bytes.Read. simpl bytes.s. simpl bytes.i.
  destruct (Z.of_nat (length b) <=? Z.of_nat q) eqn:E.
  - assert (q = length b) as -> by lia. rewrite drop_all. by eexists.
  - rewrite Nat2Z.id.
    set (chunk := take n (drop q b)).
    assert (length chunk = (n `min` (length b - q))%nat) as Hlen.
    { unfold chunk. by rewrite length_take, length_drop. }
    destruct (IH (zipHTTPFile.with_rdr f
                    (bytes.mkReader b (Z.of_nat q + Z.of_nat (length chunk))))
                 (q + length chunk)%nat (acc ++ chunk))
      as [f' Hf']; [done | | lia | done | lia |].
    { simpl. by rewrite Nat2Z.inj_add. }
    exists f'. rewrite Hf'. do 3 f_equal. rewrite <- (assoc_L (++)). f_equal.
    rewrite <- drop_drop. unfold chunk.
    destruct (decide (n ≤ length (drop q b))%nat) as [Hle | Hgt].
    + rewrite length_take, Nat.min_l by done. apply take_drop.
    + rewrite take_ge by lia. by rewrite drop_all, app_nil_r.
Qed.

Lemma listPages_never_ends fuel k f es :
  zipHTTPFile.isDir f = true → zipHTTPFile.entries f = Some es →
  es ≠ [] → 0 < k → listPages fuel k f = None.
Proof.
  revert f es. induction fuel as [|fuel IH]; intros f es Hd He Hne Hk; [done |].
  simpl. destruct (decide (Z.of_nat (length es) <= k)) as [Hall | Hsome].
  - rewrite (Readdir_all f es) by auto.
    destruct es as [|e es']; [done |]. by rewrite (IH f (e :: es')).
  - rewrite (Readdir_some f es) by (auto; lia).
    assert (take (Z.to_nat k) es ≠ []) as Hpage.
    { destruct es; [done |]. destruct (Z.to_nat k) eqn:E; [lia | done]. }
    destruct (take (Z.to_nat k) es) as [|e page] eqn:Ep; [done |].
    rewrite (IH _ (drop (Z.to_nat k) es)); [done | done | done | | done].
    intros Hnil. apply (f_equal length) in Hnil.
    rewrite length_drop in Hnil. simpl in Hnil. lia.
Qed.

(** ** The ancestor loop ends *)

Lemma dirPrefix_no_slash s : hasSlash s = false → dirPrefix s = "".
Proof. destruct s as [|c s]; [done |]. intros H. simpl in *. by rewrite H. Qed.

Lemma lastIndexFrom_spec s pos last :
  last < pos →
  let i := strings.lastIndexFrom s "/" pos last in
  if hasSlash s
  then pos <= i < pos + Z.of_nat (String.length s)
       ∧ String.substring 0 (Z.to_nat (i - pos + 1)) s = dirPrefix s
  else i = last.
Proof.
  revert pos last. induction s as [|c s IH]; intros pos last Hlt; [done |].
  cbn [strings.lastIndexFrom].
  specialize (IH (pos + 1) (if Ascii.eqb c "/" then pos else last)).
  cbv zeta in IH |- *.
  set (i := strings.lastIndexFrom s "/" (pos + 1) _) in *.
  cbn [hasSlash dirPrefix]. cbn [hasSlash] in IH.
  destruct (hasSlash s) eqn:Hs.
  - rewrite orb_true_r.
    destruct IH as [Hi Hsub]; [destruct (Ascii.eqb c "/"); lia |].
    split; [cbn [String.length]; lia |].
    replace (Z.to_nat (i - pos + 1)) with (S (Z.to_nat (i - (pos + 1) + 1)))
      by lia.
    simpl. by rewrite Hsub.
  - rewrite orb_false_r. rewrite (dirPrefix_no_slash s Hs).
    destruct (Ascii.eqb c "/") eqn:Hc.
    + rewrite IH by lia. split; [cbn [String.length]; lia |].
      replace (Z.to_nat (pos - pos + 1)) with 1%nat by lia.
      simpl. by rewrite substring_0_0.
    + apply IH. lia.
Qed.

Lemma Split_dirPrefix p : fst (path.Split p) = dirPrefix p.
Proof.
  unfold path.Split, strings.LastIndexByte, slice. simpl fst.
  pose proof (lastIndexFrom_spec p 0 (-1) ltac:(lia)) as H. cbv zeta in H.
  destruct (hasSlash p) eqn:Hs.
  - destruct H as [Hi Hsub]. rewrite Nat.sub_0_r.
    by rewrite Z.sub_0_r in Hsub.
  - rewrite H. simpl. rewrite substring_0_0. by rewrite dirPrefix_no_slash.
Qed.

Lemma dirPrefix_length s : (String.length (dirPrefix s) ≤ String.length s)%nat.
Proof.
  induction s as [|c s IH]; [done |].
  change (dirPrefix (String c s))
    with (if hasSlash (String c s) then String c (dirPrefix s) else "").
  destruct (hasSlash (String c s)); cbn [String.length]; lia.
Qed.

Lemma dirPrefix_endsWithSlash s :
  hasSlash s = true → endsWithSlash (dirPrefix s) = true.
Proof.
  induction s as [|c s IH]; [done |]. intros H.
  change (dirPrefix (String c s))
    with (if hasSlash (String c s) then String c (dirPrefix s) else "").
  rewrite H. simpl in H. destruct (hasSlash s) eqn:Hs.
  - specialize (IH eq_refl). simpl. destruct (dirPrefix s); [done | exact IH].
  - rewrite orb_false_r in H. rewrite (dirPrefix_no_slash s Hs). done.
Qed.

Lemma weight_app l1 l2 : weight (l1 ++ l2) = (weight l1 + weight l2)%nat.
Proof. induction l1 as [|e l IH]; simpl; [done | rewrite IH; lia]. Qed.

Lemma weight_rev l : weight (rev l) = weight l.
Proof.
  induction l as [|e l IH]; simpl; [done |].
  rewrite weight_app, IH. simpl. lia.
Qed.

Lemma string_length_app a b :
  String.length (a +:+ b) = (String.length a + String.length b)%nat.
Proof. induction a as [|c a IH]; simpl; [done | by rewrite IH]. Qed.

Lemma joinElements_length l :
  l ≠ [] → S (String.length (path.joinElements l)) = weight l.
Proof.
  induction l as [|e l IH]; [done | intros _].
  rewrite joinElements_cons. destruct l as [|e' l]; [simpl; lia |].
  specialize (IH ltac:(done)). rewrite !string_length_app.
  change (weight (e :: e' :: l))
    with (S (String.length e) + weight (e' :: l))%nat.
  change (String.length "/") with 1%nat. lia.
Qed.

Lemma cleanStep_weight rooted out e :
  (weight (path.cleanStep rooted out e)
   ≤ weight out + if String.eqb e "" then 0 else S (String.length e))%nat.
Proof.
  unfold path.cleanStep. destruct (String.eqb e "") eqn:E1; [simpl; lia |].
  destruct (String.eqb e "."); [simpl; lia |]. simpl.
  destruct (String.eqb e "..").
  - destruct out as [|top rest].
    + destruct rooted; simpl; lia.
    + destruct (String.eqb top ".."); [destruct rooted |]; simpl; lia.
  - simpl. lia.
Qed.

Lemma fold_cleanStep_weight rooted l out :
  (weight (fold_left (path.cleanStep rooted) l out)
   ≤ weight out + realWeight l)%nat.
Proof.
  revert out. induction l as [|e l IH]; intros out; simpl; [lia |].
  etrans; [apply IH |]. pose proof (cleanStep_weight rooted out e). lia.
Qed.

Lemma cleanElements_weight rooted p :
  (weight (path.cleanElements rooted p) ≤ realWeight (path.elements p))%nat.
Proof.
  unfold path.cleanElements. rewrite weight_rev.
  etrans; [apply fold_cleanStep_weight | done].
Qed.

Lemma realWeight_empties l : (realWeight l + empties l)%nat = weight l.
Proof.
  induction l as [|e l IH]; [done |]. unfold empties in *. simpl.
  rewrite filter_cons. destruct (String.eqb_spec e "") as [-> | Hne].
  - rewrite decide_True by done. simpl. lia.
  - rewrite decide_False by done. lia.
Qed.

Lemma elements_weight s : weight (path.elements s) = S (String.length s).
Proof.
  induction s as [|c s IH]; [done |]. simpl.
  destruct (Ascii.eqb c "/"); [simpl; lia |].
  pose proof (elements_nonempty s).
  destruct (path.elements s) as [|h t]; [done |]. simpl in *. lia.
Qed.

Lemma empties_app l1 l2 : empties (l1 ++ l2) = (empties l1 + empties l2)%nat.
Proof. unfold empties. by rewrite filter_app, length_app. Qed.

(** [Clean] shortens a path that ends with a slash, the root apart. *)
Lemma Clean_shorter q :
  endsWithSlash q = true → q = "/" ∨
  (String.length (path.Clean q) < String.length q)%nat.
Proof.
  intros [s ->]%endsWithSlash_inv.
  destruct s as [|c s]; [by left | right].
  change (String c s +:+ "/") with (String c (s +:+ "/")).
  unfold path.Clean. rewrite HasPrefix_slash.
  change (String.eqb (String c (s +:+ "/")) "") with false. cbv iota.
  change (String c (s +:+ "/")) with (String c s +:+ "/").
  rewrite cleanElements_app_slash.
  pose proof (cleanElements_weight (Ascii.eqb c "/") (String c s)) as Hw.
  pose proof (realWeight_empties (path.elements (String c s))) as Hre.
  rewrite elements_weight in Hre.
  rewrite string_length_app. cbn [String.length] in *.
  destruct (path.cleanElements (Ascii.eqb c "/") (String c s)) as [|e l] eqn:El.
  - destruct (Ascii.eqb c "/"); simpl; lia.
  - pose proof (joinElements_length (e :: l) ltac:(done)) as Hj.
    destruct (Ascii.eqb c "/") eqn:Hc.
    + rewrite append_slash. cbn [String.eqb String.length].
      assert (1 ≤ empties (path.elements (String c s)))%nat.
      { simpl. rewrite Hc. unfold empties. rewrite filter_cons.
        rewrite decide_True by done. simpl. lia. }
      lia.
    + destruct (path.joinElements (e :: l)) as [|c' s'] eqn:Ej.
      * pose proof (cleanElements_element false (String c s)) as Hel.
        rewrite El in Hel. inversion Hel as [|? ? (Hne & _) _]; subst.
        destruct e; [done |]. simpl in Hj. lia.
      * cbn [String.eqb]. lia.
Qed.

Lemma parentDir_length p :
  (String.length (parentDir p) ≤ String.length p)%nat
  ∧ (p ≠ "" → p ≠ "/" → String.length (parentDir p) < String.length p)%nat.
Proof.
  unfold parentDir, path.Dir. rewrite Split_dirPrefix.
  destruct (hasSlash p) eqn:Hs.
  - pose proof (dirPrefix_length p) as Hlen.
    destruct (Clean_shorter _ (dirPrefix_endsWithSlash p Hs)) as [Hq | Hq].
    + rewrite Hq in *. change (path.Clean "/") with "/". simpl.
      destruct p as [|c [|d p]]; simpl in *; try done; [| split; lia].
      rewrite orb_false_r in Hs. apply Ascii.eqb_eq in Hs as ->.
      split; [lia | done].
    + destruct (String.eqb (path.Clean (dirPrefix p)) "."); simpl; split; lia.
  - rewrite dirPrefix_no_slash by done. simpl.
    split; [lia |]. destruct p; [done | simpl; lia].
Qed.

Lemma populate_total fuel name dir d :
  (String.length dir < fuel)%nat → is_Some (populate fuel name dir d).
Proof.
  revert dir d. induction fuel as [|fuel IH]; intros dir d Hf; [lia |].
  simpl. destruct (String.eqb_spec dir "") as [-> | H1]; [done |].
  destruct (String.eqb dir "."); [done |].
  destruct (String.eqb_spec dir "/") as [-> | H2]; [done |]. simpl.
  apply IH. pose proof (parentDir_length dir) as [_ Hlt].
  specialize (Hlt H1 H2). lia.
Qed.

Lemma addEntry_total z f : is_Some (addEntry z f).
Proof.
  unfold addEntry. destruct (zip.IsDir f); [done |].
  destruct (populate_total (S (String.length (entryName f))) (entryName f)
              (parentDir (entryName f)) (dirs z)) as [d' Hd'].
  { pose proof (parentDir_length (entryName f)) as [Hle _]. lia. }
  rewrite Hd'. done.
Qed.

(** X1. [newZipFS] returns an index for every archive: the ancestor loop,
    which has no bound of its own, ends for every member name. *)
Theorem newZipFS_total r : is_Some (newZipFS r).
Proof.
  unfold newZipFS. generalize (mkZipFS ∅ ∅).
  induction r as [|f r IH]; intros z; simpl; [done |].
  destruct (addEntry_total z f) as [z' ->]. simpl. apply IH.
Qed.

(** ** The index and [Open] name members alike *)

Lemma HasPrefix_dotslash a b s :
  strings.HasPrefix (String a (String b s)) "./"
  = Ascii.eqb a "." && Ascii.eqb b "/".
Proof.
  unfold strings.HasPrefix, slice. simpl. rewrite substring_0_0. simpl.
  destruct (Ascii.eqb a "."), (Ascii.eqb b "/"); done.
Qed.

Lemma append_cons a s t : String a s +:+ t = String a (s +:+ t).
Proof. reflexivity. Qed.

Lemma joinElements_no_dotslash l :
  Forall element l → strings.HasPrefix (path.joinElements l) "./" = false.
Proof.
  destruct l as [|e l]; [done |]. intros Hl.
  inversion Hl as [|? ? (Hne & Hdot & Hsl) _]; subst.
  rewrite joinElements_cons.
  destruct e as [|a [|b e]]; [done | |].
  - destruct l; [done |]. rewrite append_slash, append_cons.
    change ("" +:+ ?x) with x. rewrite HasPrefix_dotslash.
    destruct (Ascii.eqb_spec a "."); [by subst | done].
  - simpl in Hsl. apply orb_false_iff in Hsl as [_ [Hb _]%orb_false_iff].
    destruct l; rewrite ?append_cons, HasPrefix_dotslash, Hb;
      apply andb_false_r.
Qed.

Lemma Clean_no_dotslash p : strings.TrimPrefix (path.Clean p) "./" = path.Clean p.
Proof.
  unfold strings.TrimPrefix.
  enough (strings.HasPrefix (path.Clean p) "./" = false) as -> by done.
  unfold path.Clean. destruct (String.eqb p ""); [done |].
  pose proof (cleanElements_element (strings.HasPrefix p "/") p) as Hel.
  destruct (strings.HasPrefix p "/").
  - rewrite append_slash. cbn [String.eqb].
    destruct (path.joinElements _); [done | apply HasPrefix_dotslash].
  - destruct (String.eqb (path.joinElements _) ""); [done |].
    by apply joinElements_no_dotslash.
Qed.

Lemma entryName_openName f : entryName f = openName (zip.Name f).
Proof. unfold entryName, openName. by rewrite Clean_no_dotslash. Qed.

(** ** What [newZipFS] stores *)

Lemma addEntry_files z f z' :
  addEntry z f = Some z' →
  files z' = if zip.IsDir f then files z else <[entryName f := f]> (files z).
Proof.
  unfold addEntry. destruct (zip.IsDir f); [by intros [= <-] |].
  destruct (populate _ _ _ _); simpl; [by intros [= <-] | done].
Qed.

Lemma addEntries_files_preserved r z z' k f :
  addEntries z r = Some z' → files z !! k = Some f →
  Forall (λ g, zip.IsDir g = false → entryName g ≠ k) r →
  files z' !! k = Some f.
Proof.
  revert z. induction r as [|g r IH]; intros z Hadd Hk Hr; simpl in Hadd.
  - by injection Hadd as <-.
  - destruct (addEntry z g) as [z1|] eqn:Hg; [| done]. simpl in Hadd.
    inversion Hr as [|? ? Hg1 Hr1]; subst.
    apply (IH z1); [done | | done].
    rewrite (addEntry_files _ _ _ Hg). destruct (zip.IsDir g); [done |].
    rewrite lookup_insert_ne; [done | by apply Hg1].
Qed.

(** A file member is found under the name [Open] computes for it, unless a
    later file member takes the same name. *)
Theorem newZipFS_files r1 f r2 z :
  newZipFS (r1 ++ f :: r2) = Some z → zip.IsDir f = false →
  Forall (λ g, zip.IsDir g = false → entryName g ≠ entryName f) r2 →
  files z !! openName (zip.Name f) = Some f.
Proof.
  unfold newZipFS. generalize (mkZipFS ∅ ∅). rewrite <- entryName_openName.
  induction r1 as [|g r1 IH]; intros z0 Hadd Hf Hr2; simpl in Hadd.
  - destruct (addEntry z0 f) as [z1|] eqn:H1; [| done]. simpl in Hadd.
    apply (addEntries_files_preserved r2 z1); [done | | done].
    rewrite (addEntry_files _ _ _ H1), Hf. apply lookup_insert_eq.
  - destruct (addEntry z0 g) as [z1|]; [| done]. by apply (IH z1).
Qed.

(** ** What the ancestor loop registers *)

Lemma populate_registers_base fuel name dir d d' key :
  populate fuel name dir d = Some d' →
  ∃ k, default [] (d' !! key)
       = default [] (d !! key) ++ replicate k (path.Base name).
Proof.
  revert dir d. induction fuel as [|fuel IH]; intros dir d Hp; [done |].
  simpl in Hp.
  set (d1 := <[ancestorKey dir := _]> d) in Hp.
  assert (∃ k, default [] (d1 !! key)
               = default [] (d !! key) ++ replicate k (path.Base name))
    as [k1 Hk1].
  { unfold d1. destruct (decide (ancestorKey dir = key)) as [<- | Hne].
    - exists 1%nat. by rewrite lookup_insert_eq.
    - exists 0%nat. by rewrite lookup_insert_ne, app_nil_r. }
  destruct (_ || _).
  - injection Hp as <-. by exists k1.
  - destruct (IH _ _ Hp) as [k2 Hk2]. exists (k1 + k2)%nat.
    by rewrite Hk2, Hk1, replicate_add, (assoc_L (++)).
Qed.

(** A directory member empties the listing kept under its key. *)
Lemma addEntry_directory z f :
  zip.IsDir f = true →
  ∃ z', addEntry z f = Some z'
        ∧ files z' = files z
        ∧ dirs z' !! (strings.TrimSuffix (entryName f) "/" +:+ "/") = Some [].
Proof.
  intros Hd. unfold addEntry. rewrite Hd. eexists. split; [done |].
  split; [done |]. apply lookup_insert_eq.
Qed.

(** ** The sample index *)

Example newZipFS_sample :
  newZipFS [fileMember "a/b.txt" hello] = Some sampleFS.
Proof. vm_compute. reflexivity. Qed.

Example Open_sample :
  (Open sampleFS "a/c.txt", Open sampleFS "a/", Open sampleFS "/a/b.txt")
  = (inl ErrNotExist,
     inr (zipHTTPFile.mk true "a/" [] None None
            (Some [HeaderInfo (fileMember "a/b.txt" hello)])),
     inr (zipHTTPFile.mk false "b.txt" hello None
            (Some (HeaderInfo (fileMember "a/b.txt" hello))) None)).
Proof. vm_compute. reflexivity. Qed.

(** ** Paging through a listing *)

(** X15. The pages [Readdir(k)] hands out before it starts to repeat itself make
    up the listing. *)
Lemma firstPages_concat m k f es :
  zipHTTPFile.isDir f = true → zipHTTPFile.entries f = Some es → 0 < k →
  Z.of_nat (length es) <= Z.of_nat (S m) * k →
  Z.of_nat m * k < Z.of_nat (length es) ∨ m = 0%nat →
  concat (omap id (firstPages (S m) k f)) = es.
Proof.
  revert f es. induction m as [|m IH]; intros f es Hd He Hk Hup Hlo.
  - simpl. rewrite (Readdir_all f es) by (auto; lia). simpl.
    by rewrite app_nil_r.
  - destruct Hlo as [Hlo | ?]; [| done].
    change (firstPages (S (S m)) k f)
      with (let '((page, _), f') := zipHTTPFile.Readdir f k in
            page :: firstPages (S m) k f').
    rewrite (Readdir_some f es) by (auto; nia).
    cbn [omap list_omap id concat]. cbv beta.
    rewrite (IH _ (drop (Z.to_nat k) es)); [apply take_drop | done | done | done | |].
    + rewrite length_drop. nia.
    + rewrite length_drop. destruct m; [by right | left]. nia.
Qed.

(** * The claims of the specification *)

(** C1. The archive that holds the single file [x/y/z.txt] gets the three
    keys [""], ["x/"] and ["x/y/"], and [z.txt] is listed under ["x/y/"];
    but the ancestor loop registers the base name of the file at every
    level, so [dirs[""]] and [dirs["x/"]] list [z.txt] where the
    specification asks for [x] and [y]. The root then shows a directory
    [z.txt] that cannot be opened, and no listing leads to [x]. *)
Theorem newZipFS_nested_file :
  (z ← newZipFS [fileMember "x/y/z.txt" hello];
   Some (map_to_list (dirs z), dirs z !! "", dirs z !! "x/", dirs z !! "x/y/",
         map fiName (dirEntries z ""), map fiIsDir (dirEntries z ""),
         Open z "z.txt"))
  = Some ([("x/y/", ["z.txt"]); ("x/", ["z.txt"]); ("", ["z.txt"])],
          Some ["z.txt"], Some ["z.txt"], Some ["z.txt"],
          ["z.txt"], [true], inl ErrNotExist).
Proof. vm_compute. reflexivity. Qed.

(** C2. On the root handle of an archive with the one file [a.txt],
    [Readdir(0)] returns the entry and leaves the handle as it was: the
    next [Readdir(0)], and a [Readdir(7)] after it, return the same entry
    again instead of an empty sequence. *)
Theorem Readdir_all_twice :
  (z ← newZipFS [fileMember "a.txt" hello];
   h ← opened (Open z "");
   let '((page1, err1), h1) := zipHTTPFile.Readdir h 0 in
   let '((page2, err2), h2) := zipHTTPFile.Readdir h1 0 in
   let '((page3, err3), h3) := zipHTTPFile.Readdir h2 7 in
   Some (page1, page2, page3, err1, err2, err3, zipHTTPFile.entries h1))
  = Some (Some [HeaderInfo (fileMember "a.txt" hello)],
          Some [HeaderInfo (fileMember "a.txt" hello)],
          Some [HeaderInfo (fileMember "a.txt" hello)],
          None, None, None,
          Some [HeaderInfo (fileMember "a.txt" hello)]).
Proof. vm_compute. reflexivity. Qed.

(** C3. On the root handle of an archive with the files [a.txt] and
    [b.txt], [Readdir(0)] lists both; the pages of [Readdir(1)] are
    [a.txt], [b.txt], and then [b.txt] again on every further call: no
    page is ever empty, so paging until the handle is exhausted does not
    end, and the pages read on the way repeat an entry. *)
Theorem Readdir_pages_repeat :
  ∃ h,
    (z ← newZipFS [fileMember "a.txt" hello; fileMember "b.txt" hello];
     opened (Open z "")) = Some h
    ∧ fst (fst (zipHTTPFile.Readdir h 0))
      = Some [HeaderInfo (fileMember "a.txt" hello);
              HeaderInfo (fileMember "b.txt" hello)]
    ∧ firstPages 4 1 h
      = [Some [HeaderInfo (fileMember "a.txt" hello)];
         Some [HeaderInfo (fileMember "b.txt" hello)];
         Some [HeaderInfo (fileMember "b.txt" hello)];
         Some [HeaderInfo (fileMember "b.txt" hello)]]
    ∧ ∀ fuel, listPages fuel 1 h = None.
Proof.
  eexists. split; [vm_compute; reflexivity |].
  split; [vm_compute; reflexivity |]. split; [vm_compute; reflexivity |].
  intros fuel. by eapply listPages_never_ends.
Qed.

(** C4, as the code has it. [Read] and [Seek] on a directory handle return
    0 together with [io.EOF], the end-of-data condition, and leave the
    handle as it was; they raise no invalid-operation error. *)
Theorem Read_Seek_directory f :
  zipHTTPFile.isDir f = true →
  (∀ n, zipHTTPFile.Read f n = (([], Some EOF), f))
  ∧ (∀ offset whence, zipHTTPFile.Seek f offset whence = ((0, Some EOF), f)).
Proof.
  intros Hd. unfold zipHTTPFile.Read, zipHTTPFile.Seek. by rewrite Hd.
Qed.

Lemma Read_Seek_directory_witness :
  zipHTTPFile.isDir (dirHandle sampleFS "a/") = true
  ∧ (∀ n, zipHTTPFile.Read (dirHandle sampleFS "a/") n
          = (([], Some EOF), dirHandle sampleFS "a/"))
  ∧ (∀ offset whence,
       zipHTTPFile.Seek (dirHandle sampleFS "a/") offset whence
       = ((0, Some EOF), dirHandle sampleFS "a/")).
Proof.
  split; [reflexivity |].
  apply (Read_Seek_directory (dirHandle sampleFS "a/")). reflexivity.
Defined.

(** C4 fails as stated: on the handle of the directory [a/], [Read] answers
    exactly as it does on an empty regular file, with 0 bytes and [io.EOF],
    and neither [Read] nor [Seek] reports [os.ErrInvalid]. *)
Lemma Read_directory_like_empty_file :
  fst (zipHTTPFile.Read (dirHandle sampleFS "a/") 16) = ([], Some EOF)
  ∧ fst (zipHTTPFile.Read (dirHandle sampleFS "a/") 16)
    = fst (zipHTTPFile.Read emptyFile 16)
  ∧ snd (fst (zipHTTPFile.Read (dirHandle sampleFS "a/") 16))
    ≠ Some ErrInvalid
  ∧ fst (zipHTTPFile.Seek (dirHandle sampleFS "a/") 0 0) = (0, Some EOF)
  ∧ snd (fst (zipHTTPFile.Seek (dirHandle sampleFS "a/") 0 0))
    ≠ Some ErrInvalid.
Proof. repeat split; (reflexivity || discriminate). Qed.

(** C5. A directory member that comes after a file of that directory
    replaces the children registered so far by the empty list: with
    [a/b.txt] followed by [a/], [dirs["a/"]] ends up empty although
    [a/b.txt] is still in [files]; in the other order the child is kept. *)
Theorem newZipFS_directory_after_file :
  (z ← newZipFS [fileMember "a/b.txt" hello; dirMember "a/"];
   Some (dirs z !! "a/", files z !! "a/b.txt", dirEntries z "a/"))
  = Some (Some [], Some (fileMember "a/b.txt" hello), [])
  ∧ (z ← newZipFS [dirMember "a/"; fileMember "a/b.txt" hello];
     Some (dirs z !! "a/"))
    = Some (Some ["b.txt"]).
Proof. split; vm_compute; reflexivity. Qed.

(** C6, as the code has it. [Open] is a total function. For an input path
    whose normalised form is not the root ([""] or ["."]): when that form
    is a key of neither [files] nor, with a slash appended, [dirs], [Open]
    returns [os.ErrNotExist]; when it is a key of [files], [Open] returns a
    file handle on the member's content if the member can be read, and the
    read error otherwise; when it is not a key of [files] but is, with a
    slash appended, a key of [dirs], [Open] returns the handle of that
    directory. *)
Theorem Open_resolves z p :
  openName p ≠ "" → openName p ≠ "." →
  (files z !! openName p = None → dirs z !! (openName p +:+ "/") = None →
   Open z p = inl ErrNotExist)
  ∧ (∀ f, files z !! openName p = Some f →
          zip.openErr f = None → zip.copyErr f = None →
          ∃ h, Open z p = inr h
               ∧ zipHTTPFile.isDir h = false
               ∧ zipHTTPFile.data h = zip.body f)
  ∧ (∀ f e, files z !! openName p = Some f →
            zip.openErr f = Some e
            ∨ (zip.openErr f = None ∧ zip.copyErr f = Some e) →
            Open z p = inl e)
  ∧ (files z !! openName p = None →
     is_Some (dirs z !! (openName p +:+ "/")) →
     Open z p = inr (dirHandle z (openName p +:+ "/"))).
Proof.
  intros Hn1 Hn2. rewrite Open_unfold. cbv zeta.
  rewrite eqb_root_false by done. repeat split.
  - by intros -> ->.
  - intros f -> -> ->. by eexists.
  - intros f e -> [-> | [-> ->]]; done.
  - by intros -> [names ->].
Qed.

Lemma Open_resolves_witness :
  (openName "a/c.txt" ≠ "" ∧ openName "a/c.txt" ≠ ".")
  ∧ (files sampleFS !! openName "a/c.txt" = None
     ∧ dirs sampleFS !! (openName "a/c.txt" +:+ "/") = None)
  ∧ Open sampleFS "a/c.txt" = inl ErrNotExist.
Proof.
  split; [split; vm_compute; discriminate |].
  split; [split; vm_compute; reflexivity |].
  apply (Open_resolves sampleFS "a/c.txt");
    solve [vm_compute; discriminate | vm_compute; reflexivity].
Defined.

(** C6 fails as stated at the root of the empty archive: the normalised
    form of the empty path is a key of neither mapping, with or without a
    slash appended, and yet [Open] returns the root directory handle, not
    [os.ErrNotExist]. *)
Lemma empty_archive_root_is_found :
  newZipFS [] = Some (mkZipFS ∅ ∅)
  ∧ files (mkZipFS ∅ ∅) !! openName "" = None
  ∧ dirs (mkZipFS ∅ ∅) !! (openName "" +:+ "/") = None
  ∧ dirs (mkZipFS ∅ ∅) !! openName "" = None
  ∧ Open (mkZipFS ∅ ∅) "" = inr (dirHandle (mkZipFS ∅ ∅) "")
  ∧ Open (mkZipFS ∅ ∅) "" ≠ inl ErrNotExist.
Proof. repeat split; (reflexivity || discriminate). Qed.

(** C7. When the normalised form of [p] is not the root and [files] maps it
    to a member whose content [b] can be read, [Open] returns a handle
    whose buffer is [b]; seeking on it to an offset [o] from the start,
    with [0 <= o <= len(b)], succeeds and returns [o]; and reading the
    handle to its end, with a buffer of any positive size, then returns
    exactly [b[o:]]. *)
Theorem Open_Seek_Read z p f (o : Z) (n fuel : nat) :
  openName p ≠ "" → openName p ≠ "." →
  files z !! openName p = Some f →
  zip.openErr f = None → zip.copyErr f = None →
  0 <= o <= Z.of_nat (length (zip.body f)) →
  (0 < n)%nat → (length (zip.body f) - Z.to_nat o < fuel)%nat →
  ∃ h h1 h2,
    Open z p = inr h
    ∧ zipHTTPFile.data h = zip.body f
    ∧ zipHTTPFile.Seek h o 0 = ((o, None), h1)
    ∧ readAll fuel n h1 [] = Some ((drop (Z.to_nat o) (zip.body f), None), h2).
Proof.
  intros Hn1 Hn2 Hf Ho Hc Hoff Hn Hfuel.
  rewrite Open_unfold. cbv zeta. rewrite eqb_root_false, Hf, Ho, Hc by done.
  eexists. unfold zipHTTPFile.Seek, zipHTTPFile.reader, bytes.Seek. simpl.
  destruct (o <? 0) eqn:E; [lia |].
  edestruct (readAll_from fuel n) as [h2 Hh2]; last first.
  { do 2 eexists. split; [done |]. split; [done |]. split; [done |].
    rewrite Hh2. done. }
  all: simpl; try done; try lia.
  by rewrite Z2Nat.id by lia.
Qed.

Lemma Open_Seek_Read_witness :
  (openName "/a/./b.txt" ≠ "" ∧ openName "/a/./b.txt" ≠ ".")
  ∧ files sampleFS !! openName "/a/./b.txt" = Some (fileMember "a/b.txt" hello)
  ∧ 0 <= 2 <= Z.of_nat (length hello)
  ∧ ∃ h h1 h2,
      Open sampleFS "/a/./b.txt" = inr h
      ∧ zipHTTPFile.data h = hello
      ∧ zipHTTPFile.Seek h 2 0 = ((2, None), h1)
      ∧ readAll 4 2 h1 [] = Some (([x6c; x6c; x6f]%byte, None), h2).
Proof.
  split; [split; vm_compute; discriminate |].
  split; [vm_compute; reflexivity |].
  split; [vm_compute; split; discriminate |].
  apply (Open_Seek_Read sampleFS "/a/./b.txt" (fileMember "a/b.txt" hello)
           2 2 4);
    solve [vm_compute; discriminate | vm_compute; reflexivity
          | vm_compute; split; discriminate | vm_compute; lia ].
Defined.


(** C9. [Stat] on a directory handle succeeds with a record that is a
    directory, of size 0, with the zero modification time, and whose name
    is the base name of the handle's key without its final slash: that is
    the base name of the key itself (for every key but ["/"], which [Open]
    never makes), and [.] for the root key [""]. *)
Theorem Stat_directory f :
  zipHTTPFile.isDir f = true →
  ∃ info,
    zipHTTPFile.Stat f = (Some (InfoPtr info), None)
    ∧ zipFileInfo.isDir info = true
    ∧ zipFileInfo.size info = 0
    ∧ zipFileInfo.modTime info = zeroTime
    ∧ zipFileInfo.name info
      = path.Base (strings.TrimSuffix (zipHTTPFile.name f) "/")
    ∧ (zipHTTPFile.name f ≠ "/" →
       zipFileInfo.name info = path.Base (zipHTTPFile.name f))
    ∧ (zipHTTPFile.name f = "" → zipFileInfo.name info = ".").
Proof.
  intros Hd. unfold zipHTTPFile.Stat. rewrite Hd. eexists.
  split; [done |]. simpl. repeat split.
  - apply Base_TrimSuffix.
  - by intros ->.
Qed.

Lemma Stat_directory_witness :
  zipHTTPFile.isDir (dirHandle sampleFS "a/") = true
  ∧ ∃ info,
      zipHTTPFile.Stat (dirHandle sampleFS "a/") = (Some (InfoPtr info), None)
      ∧ zipFileInfo.isDir info = true
      ∧ zipFileInfo.size info = 0
      ∧ zipFileInfo.modTime info = zeroTime
      ∧ zipFileInfo.name info = "a"
      ∧ ("a/" ≠ "/" → zipFileInfo.name info = "a")
      ∧ ("a/" = "" → zipFileInfo.name info = ".").
Proof.
  split; [reflexivity |].
  apply (Stat_directory (dirHandle sampleFS "a/")). reflexivity.
Defined.

(** C10. When the normalised form of the path is [""] or ["."], [Open]
    succeeds with the root directory handle, whatever the index holds. If
    [dirs] has no root key, as in the index of the archive without
    members, the listing of that handle is empty and every [Readdir]
    returns the empty sequence and no error. *)
Theorem Open_root z p :
  openName p = "" ∨ openName p = "." →
  Open z p = inr (dirHandle z "")
  ∧ zipHTTPFile.isDir (dirHandle z "") = true
  ∧ (dirs z !! "" = None →
     zipHTTPFile.entries (dirHandle z "") = Some []
     ∧ ∀ count, zipHTTPFile.Readdir (dirHandle z "") count
                = ((Some [], None), dirHandle z ""))
  ∧ newZipFS [] = Some (mkZipFS ∅ ∅)
  ∧ dirs (mkZipFS ∅ ∅) !! "" = None.
Proof.
  intros Hroot. split; [| split; [done | split; [| done]]].
  - unfold Open. cbv zeta. by destruct Hroot as [Hn | Hn]; rewrite Hn.
  - intros Hnone. unfold dirHandle, dirEntries. rewrite Hnone.
    split; [done |]. intros count. apply Readdir_all; [done | done |].
    simpl. lia.
Qed.

Lemma Open_root_witness :
  (openName "/" = "" ∨ openName "/" = ".")
  ∧ Open (mkZipFS ∅ ∅) "/" = inr (dirHandle (mkZipFS ∅ ∅) "")
  ∧ zipHTTPFile.entries (dirHandle (mkZipFS ∅ ∅) "") = Some []
  ∧ ∀ count, zipHTTPFile.Readdir (dirHandle (mkZipFS ∅ ∅) "") count
             = ((Some [], None), dirHandle (mkZipFS ∅ ∅) "").
Proof.
  split; [left; reflexivity |].
  destruct (Open_root (mkZipFS ∅ ∅) "/") as (Hopen & _ & Hempty & _);
    [left; reflexivity |].
  split; [exact Hopen |]. apply Hempty. reflexivity.
Defined.

(** * Further properties of the code *)

(** ** Reading and seeking *)

Lemma Read_file_reader f n :
  zipHTTPFile.isDir f = false →
  zipHTTPFile.Read f n
  = (fst (bytes.Read (zipHTTPFile.reader f) n),
     zipHTTPFile.with_rdr f (snd (bytes.Read (zipHTTPFile.reader f) n))).
Proof.
  intros Hd. unfold zipHTTPFile.Read. rewrite Hd.
  by destruct (bytes.Read _ _).
Qed.

Lemma Seek_file_reader f offset whence :
  zipHTTPFile.isDir f = false →
  zipHTTPFile.Seek f offset whence
  = (fst (bytes.Seek (zipHTTPFile.reader f) offset whence),
     zipHTTPFile.with_rdr f
       (snd (bytes.Seek (zipHTTPFile.reader f) offset whence))).
Proof.
  intros Hd. unfold zipHTTPFile.Seek. rewrite Hd.
  by destruct (bytes.Seek _ _ _).
Qed.

Lemma reader_with_rdr f r : zipHTTPFile.reader (zipHTTPFile.with_rdr f r) = r.
Proof. reflexivity. Qed.

(** X16. Seeking from the start and reading: the bytes at the offset, at most
    as many as the buffer holds; at or past the end, nothing and [io.EOF]. *)
Theorem Seek_start_then_Read f (o : Z) (n : nat) :
  zipHTTPFile.isDir f = false → 0 <= o →
  ∃ f1 f2,
    zipHTTPFile.Seek f o 0 = ((o, None), f1)
    ∧ zipHTTPFile.Read f1 n
      = ((if Z.of_nat (length (bytes.s (zipHTTPFile.reader f))) <=? o
          then ([], Some EOF)
          else (take n (drop (Z.to_nat o) (bytes.s (zipHTTPFile.reader f))),
                None)), f2)
    ∧ bytes.s (zipHTTPFile.reader f2) = bytes.s (zipHTTPFile.reader f)
    ∧ bytes.i (zipHTTPFile.reader f2)
      = o + Z.of_nat (n `min` (length (bytes.s (zipHTTPFile.reader f))
                               - Z.to_nat o)).
Proof.
  intros Hd Ho. set (b := bytes.s (zipHTTPFile.reader f)).
  exists (zipHTTPFile.with_rdr f (bytes.mkReader b o)).
  rewrite Seek_file_reader, Read_file_reader, !reader_with_rdr by done.
  unfold bytes.Seek, bytes.Read. cbn [bytes.s bytes.i Z.eqb].
  fold b. destruct (o <? 0) eqn:E; [lia |].
  destruct (Z.of_nat (length b) <=? o) eqn:E2; eexists;
    cbn [fst snd bytes.s bytes.i]; rewrite ?reader_with_rdr;
    cbn [fst snd bytes.s bytes.i].
  - split; [reflexivity |]. split; [reflexivity |]. split; [done |].
    apply Z.leb_le in E2. cbn [bytes.i].
    replace (length b - Z.to_nat o)%nat with 0%nat by lia.
    rewrite Nat.min_0_r. lia.
  - split; [reflexivity |]. split; [reflexivity |]. split; [done |].
    by rewrite length_take, length_drop.
Qed.

Lemma Seek_start_then_Read_witness :
  zipHTTPFile.isDir (zipHTTPFile.mk false "b.txt" hello None None None) = false
  ∧ 0 <= 3
  ∧ ∃ f1 f2,
      zipHTTPFile.Seek (zipHTTPFile.mk false "b.txt" hello None None None) 3 0
      = ((3, None), f1)
      ∧ zipHTTPFile.Read f1 8 = (([x6c; x6f]%byte, None), f2)
      ∧ bytes.s (zipHTTPFile.reader f2) = hello
      ∧ bytes.i (zipHTTPFile.reader f2) = 5.
Proof.
  split; [reflexivity |]. split; [lia |].
  apply (Seek_start_then_Read
           (zipHTTPFile.mk false "b.txt" hello None None None) 3 8);
    [reflexivity | lia].
Defined.

(** X17. A [Seek] that fails returns 0 and leaves the read position where it
    was: the next [Read] returns what it would have returned before. *)
Theorem Seek_error_keeps_position f offset whence e :
  zipHTTPFile.isDir f = false →
  snd (fst (zipHTTPFile.Seek f offset whence)) = Some e →
  fst (fst (zipHTTPFile.Seek f offset whence)) = 0
  ∧ (e = ErrNegativePosition ∨ e = ErrInvalidWhence)
  ∧ zipHTTPFile.reader (snd (zipHTTPFile.Seek f offset whence))
    = zipHTTPFile.reader f
  ∧ ∀ n, fst (zipHTTPFile.Read (snd (zipHTTPFile.Seek f offset whence)) n)
         = fst (zipHTTPFile.Read f n).
Proof.
  intros Hd. rewrite Seek_file_reader by done. cbn [fst snd].
  intros He.
  assert (fst (fst (bytes.Seek (zipHTTPFile.reader f) offset whence)) = 0
          ∧ (e = ErrNegativePosition ∨ e = ErrInvalidWhence)
          ∧ snd (bytes.Seek (zipHTTPFile.reader f) offset whence)
            = zipHTTPFile.reader f) as (H0 & He' & Hr).
  { revert He. unfold bytes.Seek.
    destruct (whence =? 0); [| destruct (whence =? 1);
                               [| destruct (whence =? 2)]].
    all: try (match goal with |- context [?x <? 0] => destruct (x <? 0) end).
    all: cbn [fst snd]; intros [= <-] || intros [=]; auto. }
  split; [done |]. split; [done |]. rewrite reader_with_rdr.
  split; [done |]. intros n. rewrite !Read_file_reader by done.
  cbn [fst]. by rewrite reader_with_rdr, Hr.
Qed.

Lemma Seek_error_keeps_position_witness :
  zipHTTPFile.isDir (zipHTTPFile.mk false "b.txt" hello None None None) = false
  ∧ snd (fst (zipHTTPFile.Seek
                (zipHTTPFile.mk false "b.txt" hello None None None) (-6) 2))
    = Some ErrNegativePosition
  ∧ fst (fst (zipHTTPFile.Seek
                (zipHTTPFile.mk false "b.txt" hello None None None) (-6) 2))
    = 0.
Proof.
  split; [reflexivity |]. split; [reflexivity |].
  apply (Seek_error_keeps_position
           (zipHTTPFile.mk false "b.txt" hello None None None) (-6) 2
           ErrNegativePosition); reflexivity.
Defined.

Lemma wrap64_small x : - 2 ^ 63 <= x < 2 ^ 63 → wrap64 x = x.
Proof.
  intros Hx. unfold wrap64. rewrite Z.mod_small; lia.
Qed.

Lemma bytes_Seek_end b pos :
  Z.of_nat (length b) < 2 ^ 63 →
  bytes.Seek (bytes.mkReader b pos) 0 2
  = ((Z.of_nat (length b), None), bytes.mkReader b (Z.of_nat (length b))).
Proof.
  intros Hlen. unfold bytes.Seek.
  change (2 =? 0) with false. change (2 =? 1) with false.
  change (2 =? 2) with true. cbv iota. cbn [bytes.s bytes.i].
  rewrite Z.add_0_r, wrap64_small by lia.
  destruct (Z.of_nat (length b) <? 0) eqn:E; [lia | done].
Qed.

(** X18. Finding the size of a file and reading it, as a server of static
    content does: on a handle not yet read, [Seek(0, io.SeekEnd)] returns
    the length of the content, [Seek(0, io.SeekStart)] returns 0, and
    reading to the end then gives the whole content. *)
Theorem size_probe_then_read f (n fuel : nat) :
  zipHTTPFile.isDir f = false → zipHTTPFile.rdr f = None →
  Z.of_nat (length (zipHTTPFile.data f)) < 2 ^ 63 →
  (0 < n)%nat → (length (zipHTTPFile.data f) < fuel)%nat →
  ∃ f1 f2 f3,
    zipHTTPFile.Seek f 0 2
    = ((Z.of_nat (length (zipHTTPFile.data f)), None), f1)
    ∧ zipHTTPFile.Seek f1 0 0 = ((0, None), f2)
    ∧ readAll fuel n f2 [] = Some ((zipHTTPFile.data f, None), f3).
Proof.
  intros Hd Hr Hlen Hn Hfuel.
  set (b := zipHTTPFile.data f) in *.
  assert (zipHTTPFile.reader f = bytes.mkReader b 0) as Hrd.
  { unfold zipHTTPFile.reader. by rewrite Hr. }
  exists (zipHTTPFile.with_rdr f (bytes.mkReader b (Z.of_nat (length b)))).
  exists (zipHTTPFile.with_rdr
            (zipHTTPFile.with_rdr f (bytes.mkReader b (Z.of_nat (length b))))
            (bytes.mkReader b 0)).
  destruct (readAll_from fuel n
              (zipHTTPFile.with_rdr
                 (zipHTTPFile.with_rdr f
                    (bytes.mkReader b (Z.of_nat (length b))))
                 (bytes.mkReader b 0)) b 0 [])
    as [f3 Hf3]; [done | done | lia | done | lia |].
  exists f3. split; [| split; [| exact Hf3]].
  - rewrite Seek_file_reader, Hrd by done.
    rewrite (bytes_Seek_end b 0) by done. reflexivity.
  - rewrite Seek_file_reader by done. reflexivity.
Qed.

Lemma size_probe_then_read_witness :
  (zipHTTPFile.isDir (zipHTTPFile.mk false "b.txt" hello None None None)
   = false
   ∧ zipHTTPFile.rdr (zipHTTPFile.mk false "b.txt" hello None None None)
     = None)
  ∧ ∃ f1 f2 f3,
      zipHTTPFile.Seek (zipHTTPFile.mk false "b.txt" hello None None None) 0 2
      = ((5, None), f1)
      ∧ zipHTTPFile.Seek f1 0 0 = ((0, None), f2)
      ∧ readAll 6 4 f2 [] = Some ((hello, None), f3).
Proof.
  split; [split; reflexivity |].
  apply (size_probe_then_read
           (zipHTTPFile.mk false "b.txt" hello None None None) 4 6);
    solve [reflexivity | vm_compute; reflexivity | vm_compute; lia].
Defined.

(** ** What calls leave untouched *)

Lemma fmap_drop_0 {A} (o : option (list A)) : o = drop 0 <$> o.
Proof. by destruct o. Qed.

Lemma afterCall_fields f c :
  zipHTTPFile.isDir (afterCall f c) = zipHTTPFile.isDir f
  ∧ zipHTTPFile.name (afterCall f c) = zipHTTPFile.name f
  ∧ zipHTTPFile.data (afterCall f c) = zipHTTPFile.data f
  ∧ zipHTTPFile.fi (afterCall f c) = zipHTTPFile.fi f
  ∧ ∃ k, zipHTTPFile.entries (afterCall f c)
         = drop k <$> zipHTTPFile.entries f.
Proof.
  destruct c as [n | offset whence | count | |]; cbn [afterCall].
  - unfold zipHTTPFile.Read. destruct (zipHTTPFile.isDir f) eqn:Hd.
    + repeat split; try done. exists 0%nat. apply fmap_drop_0.
    + destruct (bytes.Read _ _). repeat split; try done.
      exists 0%nat. apply fmap_drop_0.
  - unfold zipHTTPFile.Seek. destruct (zipHTTPFile.isDir f) eqn:Hd.
    + repeat split; try done. exists 0%nat. apply fmap_drop_0.
    + destruct (bytes.Seek _ _ _). repeat split; try done.
      exists 0%nat. apply fmap_drop_0.
  - unfold zipHTTPFile.Readdir. destruct (zipHTTPFile.isDir f) eqn:Hd;
      cbn [negb].
    + destruct (zipHTTPFile.entries f) as [es|] eqn:He.
      * destruct (_ || _); cbn [snd].
        -- repeat split; try done. exists 0%nat. by rewrite ?He.
        -- repeat split; try done. by exists (Z.to_nat count).
      * repeat split; try done. exists 0%nat. by rewrite ?He.
    + repeat split; try done. exists 0%nat. apply fmap_drop_0.
  - repeat split; try done. exists 0%nat. apply fmap_drop_0.
  - repeat split; try done. exists 0%nat. apply fmap_drop_0.
Qed.

Lemma afterCalls_fields cs f :
  zipHTTPFile.isDir (afterCalls f cs) = zipHTTPFile.isDir f
  ∧ zipHTTPFile.name (afterCalls f cs) = zipHTTPFile.name f
  ∧ zipHTTPFile.data (afterCalls f cs) = zipHTTPFile.data f
  ∧ zipHTTPFile.fi (afterCalls f cs) = zipHTTPFile.fi f
  ∧ ∃ k, zipHTTPFile.entries (afterCalls f cs)
         = drop k <$> zipHTTPFile.entries f.
Proof.
  revert f. induction cs as [|c cs IH]; intros f.
  - repeat split. exists 0%nat. apply fmap_drop_0.
  - unfold afterCalls in *. simpl.
    destruct (IH (afterCall f c)) as (H1 & H2 & H3 & H4 & k & H5).
    destruct (afterCall_fields f c) as (G1 & G2 & G3 & G4 & j & G5).
    rewrite H1, H2, H3, H4, H5, G1, G2, G3, G4, G5. repeat split.
    exists (j + k)%nat. destruct (zipHTTPFile.entries f); simpl; [| done].
    by rewrite drop_drop.
Qed.

(** X13. [Stat] answers the same whatever has been read, sought or listed on
    the handle before. *)
Theorem Stat_after_calls f cs :
  zipHTTPFile.Stat (afterCalls f cs) = zipHTTPFile.Stat f.
Proof.
  destruct (afterCalls_fields cs f) as (H1 & H2 & H3 & H4 & _).
  unfold zipHTTPFile.Stat. by rewrite H1, H2, H3, H4.
Qed.

Lemma Open_handle_shape z p h :
  Open z p = inr h →
  (zipHTTPFile.isDir h = true
   ∧ zipHTTPFile.entries h = Some (dirEntries z (zipHTTPFile.name h))
   ∧ (zipHTTPFile.name h = "" ∨ zipHTTPFile.name h = openName p +:+ "/"))
  ∨ (zipHTTPFile.isDir h = false
     ∧ ∃ f, files z !! openName p = Some f
            ∧ zipHTTPFile.fi h = Some (HeaderInfo f)
            ∧ zipHTTPFile.data h = zip.body f
            ∧ zipHTTPFile.name h = path.Base (openName p)
            ∧ zipHTTPFile.rdr h = None).
Proof.
  rewrite Open_unfold. cbv zeta.
  destruct (String.eqb (openName p) "." || String.eqb (openName p) "").
  { intros [= <-]. left. simpl. auto. }
  destruct (files z !! openName p) as [f|] eqn:Hf.
  - destruct (zip.openErr f); [done |]. destruct (zip.copyErr f); [done |].
    intros [= <-]. right. simpl. split; [done |]. by exists f.
  - destruct (dirs z !! (openName p +:+ "/")); [| done].
    intros [= <-]. left. simpl. auto.
Qed.

(** X12. On a handle that [Open] returned, after any calls: [Readdir] on a
    directory returns, without error, a stretch of the listing taken when
    the directory was opened, never a nil page; [Readdir] on a file fails
    with [os.ErrInvalid] and changes nothing; and [Stat] on a file returns
    the header of the member stored under the normalised path. *)
Theorem Open_handle_calls z p h cs count :
  Open z p = inr h →
  (zipHTTPFile.isDir h = true →
   ∃ k j, fst (zipHTTPFile.Readdir (afterCalls h cs) count)
          = (Some (take j (drop k (dirEntries z (zipHTTPFile.name h)))), None))
  ∧ (zipHTTPFile.isDir h = false →
     zipHTTPFile.Readdir (afterCalls h cs) count
     = ((None, Some ErrInvalid), afterCalls h cs)
     ∧ ∃ f, files z !! openName p = Some f
            ∧ zipHTTPFile.Stat (afterCalls h cs)
              = (Some (HeaderInfo f), None)).
Proof.
  intros Hopen.
  destruct (afterCalls_fields cs h) as (H1 & _ & _ & _ & k & H5).
  destruct (Open_handle_shape z p h Hopen)
    as [(Hd & He & _) | (Hd & f & Hf & Hfi & _)].
  - split; [intros _ | by rewrite Hd].
    rewrite He in H5. simpl in H5. unfold zipHTTPFile.Readdir.
    rewrite H1, Hd, H5. simpl.
    destruct (_ || _); simpl.
    + exists k, (length (drop k (dirEntries z (zipHTTPFile.name h)))).
      by rewrite firstn_all.
    + by exists k, (Z.to_nat count).
  - split; [by rewrite Hd | intros _]. split.
    + unfold zipHTTPFile.Readdir. by rewrite H1, Hd.
    + exists f. split; [done |].
      destruct (afterCalls_fields cs h) as (_ & _ & _ & H4 & _).
      unfold zipHTTPFile.Stat. by rewrite H1, Hd, H4, Hfi.
Qed.

Lemma Open_handle_calls_witness :
  Open sampleFS "a" = inr (dirHandle sampleFS "a/")
  ∧ ∃ k j,
      fst (zipHTTPFile.Readdir
             (afterCalls (dirHandle sampleFS "a/")
                [CallReaddir 1; CallStat; CallRead 4; CallReaddir 0]) (-1))
      = (Some (take j (drop k (dirEntries sampleFS "a/"))), None).
Proof.
  split; [vm_compute; reflexivity |].
  apply (Open_handle_calls sampleFS "a" (dirHandle sampleFS "a/")
           [CallReaddir 1; CallStat; CallRead 4; CallReaddir 0] (-1));
    vm_compute; reflexivity.
Defined.

(** X14. [Readdir] on a directory handle hands out the listing from the front
    and skips nothing: the page is a prefix of what was left, and the
    cursor moves, by exactly [count] entries, only when [count] is positive
    and smaller than what was left. *)
Theorem Readdir_page_split f es count :
  zipHTTPFile.isDir f = true → zipHTTPFile.entries f = Some es →
  ∃ page rest,
    zipHTTPFile.Readdir f count
    = ((Some page, None), zipHTTPFile.with_entries f rest)
    ∧ ((0 < count < Z.of_nat (length es)
        ∧ page ++ rest = es ∧ Z.of_nat (length page) = count)
       ∨ (¬ 0 < count < Z.of_nat (length es) ∧ page = es ∧ rest = es)).
Proof.
  intros Hd He.
  destruct (decide (0 < count < Z.of_nat (length es))) as [Hc | Hc].
  - exists (take (Z.to_nat count) es), (drop (Z.to_nat count) es).
    split; [by apply Readdir_some |]. left. split; [done |].
    split; [apply take_drop |]. rewrite length_take. lia.
  - exists es, es. split; [| by right].
    rewrite (Readdir_all f es) by (auto; lia).
    f_equal. destruct f. simpl in *. by subst.
Qed.

Lemma Readdir_page_split_witness :
  zipHTTPFile.isDir (dirHandle sampleFS "") = true
  ∧ zipHTTPFile.entries (dirHandle sampleFS "") = Some (dirEntries sampleFS "")
  ∧ ∃ page rest,
      zipHTTPFile.Readdir (dirHandle sampleFS "") 3
      = ((Some page, None),
         zipHTTPFile.with_entries (dirHandle sampleFS "") rest)
      ∧ ((0 < 3 < Z.of_nat (length (dirEntries sampleFS ""))
          ∧ page ++ rest = dirEntries sampleFS ""
          ∧ Z.of_nat (length page) = 3)
         ∨ (¬ 0 < 3 < Z.of_nat (length (dirEntries sampleFS ""))
            ∧ page = dirEntries sampleFS "" ∧ rest = dirEntries sampleFS "")).
Proof.
  split; [reflexivity |]. split; [reflexivity |].
  apply (Readdir_page_split (dirHandle sampleFS "") (dirEntries sampleFS "") 3);
    reflexivity.
Defined.

Lemma firstPages_concat_witness :
  zipHTTPFile.isDir
    (zipHTTPFile.mk true "d/" [] None None
       (Some (map (λ n, InfoPtr (zipFileInfo.mk n true zeroTime 0))
                  ["a"; "b"; "c"; "d"; "e"]))) = true
  ∧ concat (omap id
      (firstPages 3 2
         (zipHTTPFile.mk true "d/" [] None None
            (Some (map (λ n, InfoPtr (zipFileInfo.mk n true zeroTime 0))
                       ["a"; "b"; "c"; "d"; "e"])))))
    = map (λ n, InfoPtr (zipFileInfo.mk n true zeroTime 0))
          ["a"; "b"; "c"; "d"; "e"].
Proof.
  split; [reflexivity |].
  apply (firstPages_concat 2 2
           (zipHTTPFile.mk true "d/" [] None None
              (Some (map (λ n, InfoPtr (zipFileInfo.mk n true zeroTime 0))
                         ["a"; "b"; "c"; "d"; "e"]))));
    solve [reflexivity | simpl; lia | left; simpl; lia].
Defined.

(** ** Members and the entries of [files] *)

Lemma addEntries_files_sound r z z' k f :
  addEntries z r = Some z' → files z' !! k = Some f →
  files z !! k = Some f
  ∨ (f ∈ r ∧ zip.IsDir f = false ∧ entryName f = k).
Proof.
  revert z. induction r as [|g r IH]; intros z Hadd Hk; simpl in Hadd.
  - injection Hadd as <-. by left.
  - destruct (addEntry z g) as [z1|] eqn:Hg; [| done]. simpl in Hadd.
    destruct (IH z1 Hadd Hk) as [H1 | (Hin & Hd & Hn)].
    + rewrite (addEntry_files _ _ _ Hg) in H1.
      destruct (zip.IsDir g) eqn:Hgd; [by left |].
      destruct (decide (entryName g = k)) as [<- | Hne].
      * rewrite lookup_insert_eq in H1. injection H1 as <-.
        right. split; [apply list_elem_of_here | done].
      * rewrite lookup_insert_ne in H1 by done. by left.
    + right. split; [by apply list_elem_of_further | done].
Qed.

Lemma newZipFS_files_sound r z k f :
  newZipFS r = Some z → files z !! k = Some f →
  f ∈ r ∧ zip.IsDir f = false ∧ entryName f = k.
Proof.
  intros Hz Hk.
  destruct (addEntries_files_sound r _ z k f Hz Hk) as [H | H]; [| done].
  simpl in H. by rewrite lookup_empty in H.
Qed.

(** X3. A file handle that [Open] returns on a built index carries the content
    of a regular member of the archive whose normalised name is the
    normalised path, and that member could be read without error. *)
Theorem Open_file_is_member r z p h :
  newZipFS r = Some z → Open z p = inr h → zipHTTPFile.isDir h = false →
  ∃ f, f ∈ r ∧ zip.IsDir f = false
       ∧ openName (zip.Name f) = openName p
       ∧ zip.openErr f = None ∧ zip.copyErr f = None
       ∧ zipHTTPFile.data h = zip.body f
       ∧ zipHTTPFile.Stat h = (Some (HeaderInfo f), None).
Proof.
  intros Hz. rewrite Open_unfold. cbv zeta.
  destruct (String.eqb (openName p) "." || String.eqb (openName p) "").
  { by intros [= <-]. }
  destruct (files z !! openName p) as [f|] eqn:Hf.
  - destruct (zip.openErr f) eqn:Ho; [done |].
    destruct (zip.copyErr f) eqn:Hc; [done |].
    intros [= <-] _. exists f.
    destruct (newZipFS_files_sound r z _ f Hz Hf) as (Hin & Hd & Hn).
    rewrite <- entryName_openName. done.
  - destruct (dirs z !! (openName p +:+ "/")); [| done]. by intros [= <-].
Qed.

(** X2. A regular member is served under its own name: when no later regular
    member normalises to the same name, the name is not the root and the
    content can be read, [Open] of the member's name returns a file handle
    with the member's content, its base name and its header. *)
Theorem newZipFS_Open_member r1 f r2 z :
  newZipFS (r1 ++ f :: r2) = Some z → zip.IsDir f = false →
  Forall (λ g, zip.IsDir g = false → entryName g ≠ entryName f) r2 →
  openName (zip.Name f) ≠ "" → openName (zip.Name f) ≠ "." →
  zip.openErr f = None → zip.copyErr f = None →
  Open z (zip.Name f)
  = inr (zipHTTPFile.mk false (path.Base (openName (zip.Name f))) (zip.body f)
           None (Some (HeaderInfo f)) None).
Proof.
  intros Hz Hd Hr2 Hn1 Hn2 Ho Hc.
  rewrite Open_unfold. cbv zeta. rewrite eqb_root_false by done.
  by rewrite (newZipFS_files r1 f r2 z Hz Hd Hr2), Ho, Hc.
Qed.

(** ** The keys of [dirs] *)

Lemma HasSuffix_app_slash s : strings.HasSuffix (s +:+ "/") "/" = true.
Proof. rewrite HasSuffix_slash. apply endsWithSlash_snoc. Qed.

Lemma ancestorKey_shape dir :
  ancestorKey dir = "" ∨ strings.HasSuffix (ancestorKey dir) "/" = true.
Proof.
  unfold ancestorKey. destruct (String.eqb dir ""); simpl; [by left |].
  right. apply HasSuffix_app_slash.
Qed.

Lemma populate_lookup fuel name dir d d' k :
  populate fuel name dir d = Some d' → is_Some (d' !! k) →
  is_Some (d !! k) ∨ k = "" ∨ strings.HasSuffix k "/" = true.
Proof.
  revert dir d. induction fuel as [|fuel IH]; intros dir d Hp Hk; [done |].
  simpl in Hp.
  set (d1 := <[ancestorKey dir := _]> d) in Hp.
  assert (is_Some (d1 !! k) →
          is_Some (d !! k) ∨ k = "" ∨ strings.HasSuffix k "/" = true) as H1.
  { unfold d1. destruct (decide (ancestorKey dir = k)) as [<- | Hne].
    - intros _. right. apply ancestorKey_shape.
    - rewrite lookup_insert_ne by done. by left. }
  destruct (_ || _).
  - injection Hp as <-. by apply H1.
  - destruct (IH _ _ Hp Hk) as [H | H]; [by apply H1 | by right].
Qed.

Lemma populate_keeps fuel name dir d d' k l x :
  populate fuel name dir d = Some d' → d !! k = Some l → x ∈ l →
  ∃ l', d' !! k = Some l' ∧ x ∈ l'.
Proof.
  revert dir d l. induction fuel as [|fuel IH]; intros dir d l Hp Hk Hx;
    [done |].
  simpl in Hp.
  set (d1 := <[ancestorKey dir := _]> d) in Hp.
  assert (∃ l1, d1 !! k = Some l1 ∧ x ∈ l1) as (l1 & Hl1 & Hx1).
  { unfold d1. destruct (decide (ancestorKey dir = k)) as [<- | Hne].
    - rewrite lookup_insert_eq, Hk. simpl. eexists. split; [done |].
      apply elem_of_app. by left.
    - rewrite lookup_insert_ne by done. by exists l. }
  destruct (_ || _).
  - injection Hp as <-. by exists l1.
  - by apply (IH _ _ l1 Hp).
Qed.

Lemma populate_visits fuel name dir d d' a :
  populate fuel name dir d = Some d' → a ∈ ancestors fuel dir →
  ∃ l, d' !! ancestorKey a = Some l ∧ path.Base name ∈ l.
Proof.
  revert dir d. induction fuel as [|fuel IH]; intros dir d Hp Ha; [done |].
  simpl in Hp, Ha.
  set (d1 := <[ancestorKey dir := _]> d) in Hp.
  assert (∃ l1, d1 !! ancestorKey dir = Some l1 ∧ path.Base name ∈ l1)
    as (l1 & Hl1 & Hx1).
  { unfold d1. rewrite lookup_insert_eq. eexists. split; [done |].
    apply elem_of_app. right. apply list_elem_of_here. }
  apply elem_of_cons in Ha as [-> | Ha].
  - destruct (_ || _).
    + injection Hp as <-. by exists l1.
    + by apply (populate_keeps _ _ _ _ _ _ l1 _ Hp).
  - destruct (_ || _); [by apply elem_of_nil in Ha |]. by apply (IH _ _ Hp).
Qed.

Lemma addEntry_dirs_lookup z f z' k :
  addEntry z f = Some z' → is_Some (dirs z' !! k) →
  is_Some (dirs z !! k) ∨ k = "" ∨ strings.HasSuffix k "/" = true.
Proof.
  unfold addEntry. destruct (zip.IsDir f).
  - intros [= <-]. simpl.
    destruct (decide (strings.TrimSuffix (entryName f) "/" +:+ "/" = k))
      as [<- | Hne].
    + intros _. right. right. apply HasSuffix_app_slash.
    + rewrite lookup_insert_ne by done. by left.
  - destruct (populate _ _ _ _) as [d'|] eqn:Hp; simpl; [| done].
    intros [= <-]. simpl. by apply (populate_lookup _ _ _ _ _ _ Hp).
Qed.

(** X5. Every key of [dirs] is the root key [""] or ends with a slash. *)
Theorem newZipFS_dirs_keys r z k :
  newZipFS r = Some z → is_Some (dirs z !! k) →
  k = "" ∨ strings.HasSuffix k "/" = true.
Proof.
  unfold newZipFS.
  assert (∀ z0, addEntries z0 r = Some z → is_Some (dirs z !! k) →
                is_Some (dirs z0 !! k) ∨ k = ""
                ∨ strings.HasSuffix k "/" = true) as H.
  { induction r as [|g r IH]; intros z0 Hadd Hk; simpl in Hadd.
    - injection Hadd as <-. by left.
    - destruct (addEntry z0 g) as [z1|] eqn:Hg; [| done]. simpl in Hadd.
      destruct (IH z1 Hadd Hk) as [H | H]; [| by right].
      by apply (addEntry_dirs_lookup _ _ _ _ Hg). }
  intros Hz Hk. destruct (H _ Hz Hk) as [Hemp | Hok]; [| done].
  simpl in Hemp. rewrite lookup_empty in Hemp. by destruct Hemp.
Qed.

Lemma newZipFS_dirs_keys_witness :
  newZipFS [fileMember "a/b.txt" hello] = Some sampleFS
  ∧ is_Some (dirs sampleFS !! "a/")
  ∧ ("a/" = "" ∨ strings.HasSuffix "a/" "/" = true).
Proof.
  split; [vm_compute; reflexivity |].
  split; [by eexists |].
  apply (newZipFS_dirs_keys [fileMember "a/b.txt" hello] sampleFS "a/");
    [vm_compute; reflexivity | by eexists].
Defined.

(** ** Keys stay, and children stay unless a directory member resets them *)

Lemma populate_keys_stay fuel name dir d d' k :
  populate fuel name dir d = Some d' → is_Some (d !! k) → is_Some (d' !! k).
Proof.
  revert dir d. induction fuel as [|fuel IH]; intros dir d Hp Hk; [done |].
  simpl in Hp.
  set (d1 := <[ancestorKey dir := _]> d) in Hp.
  assert (is_Some (d1 !! k)) as H1.
  { unfold d1. destruct (decide (ancestorKey dir = k)) as [<- | Hne].
    - by rewrite lookup_insert_eq.
    - by rewrite lookup_insert_ne. }
  destruct (_ || _); [by injection Hp as <- | by apply (IH _ _ Hp)].
Qed.

Lemma addEntry_keys_stay z f z' k :
  addEntry z f = Some z' → is_Some (dirs z !! k) → is_Some (dirs z' !! k).
Proof.
  unfold addEntry. destruct (zip.IsDir f).
  - intros [= <-] Hk. simpl.
    destruct (decide (strings.TrimSuffix (entryName f) "/" +:+ "/" = k))
      as [<- | Hne]; [by rewrite lookup_insert_eq |].
    by rewrite lookup_insert_ne.
  - destruct (populate _ _ _ _) as [d'|] eqn:Hp; simpl; [| done].
    intros [= <-]. simpl. by apply (populate_keys_stay _ _ _ _ _ _ Hp).
Qed.

Lemma addEntries_keys_stay r z z' k :
  addEntries z r = Some z' → is_Some (dirs z !! k) → is_Some (dirs z' !! k).
Proof.
  revert z. induction r as [|g r IH]; intros z Hadd Hk; simpl in Hadd.
  - by injection Hadd as <-.
  - destruct (addEntry z g) as [z1|] eqn:Hg; [| done]. simpl in Hadd.
    apply (IH z1 Hadd). by apply (addEntry_keys_stay _ _ _ _ Hg).
Qed.



Lemma addEntries_split r1 f r2 z0 z :
  addEntries z0 (r1 ++ f :: r2) = Some z →
  ∃ z1 z2, addEntries z0 r1 = Some z1 ∧ addEntry z1 f = Some z2
           ∧ addEntries z2 r2 = Some z.
Proof.
  revert z0. induction r1 as [|g r1 IH]; intros z0 Hadd; simpl in Hadd.
  - destruct (addEntry z0 f) as [z2|] eqn:Hf; [| done]. by exists z0, z2.
  - destruct (addEntry z0 g) as [z1|] eqn:Hg; [| done]. simpl in Hadd.
    destruct (IH z1 Hadd) as (z1' & z2 & H1 & H2 & H3).
    exists z1', z2. simpl. by rewrite Hg.
Qed.


(** ** Directories that open *)

Lemma openName_no_leading_slash p :
  strings.HasPrefix (openName p) "/" = false.
Proof.
  unfold openName, path.Clean.
  destruct (String.eqb p "") eqn:Hp; [done |].
  pose proof (cleanElements_element (strings.HasPrefix p "/") p) as Hel.
  destruct (strings.HasPrefix p "/").
  - rewrite !append_slash. cbn [String.eqb Ascii.eqb].
    rewrite TrimPrefix_slash. change (Ascii.eqb "/" "/") with true. cbv iota.
    destruct (path.cleanElements true p) as [|e l] eqn:El; [done |].
    destruct (joinElements_shape (e :: l) Hel ltac:(done))
      as [_ (c & s & -> & Hc)].
    by rewrite HasPrefix_slash.
  - destruct (path.cleanElements false p) as [|e l] eqn:El; [done |].
    destruct (joinElements_shape (e :: l) Hel ltac:(done))
      as [_ (c & s & Heq & Hc)].
    rewrite Heq. cbn [String.eqb]. rewrite TrimPrefix_slash, Hc.
    by rewrite HasPrefix_slash.
Qed.

Lemma ancestorKey_openName p :
  openName p ≠ "" → ancestorKey (openName p) = openName p +:+ "/".
Proof.
  intros Hne. unfold ancestorKey.
  destruct (String.eqb_spec (openName p) ""); [done |]. simpl.
  unfold strings.TrimPrefix. rewrite openName_no_leading_slash.
  unfold strings.TrimSuffix. by rewrite openName_no_trailing_slash.
Qed.

Lemma parentDir_not_dot p : parentDir p ≠ ".".
Proof.
  unfold parentDir. by destruct (String.eqb_spec (path.Dir p) ".").
Qed.

Lemma ancestors_not_dot fuel p a : a ∈ ancestors fuel (parentDir p) → a ≠ ".".
Proof.
  revert p. induction fuel as [|fuel IH]; intros p Ha; simpl in Ha;
    [by apply elem_of_nil in Ha |].
  apply elem_of_cons in Ha as [-> | Ha]; [apply parentDir_not_dot |].
  destruct (_ || _); [by apply elem_of_nil in Ha | by apply (IH _ Ha)].
Qed.

Lemma newZipFS_ancestor_key r z f a :
  newZipFS r = Some z → f ∈ r → zip.IsDir f = false →
  a ∈ ancestors (S (String.length (entryName f))) (parentDir (entryName f)) →
  is_Some (dirs z !! ancestorKey a).
Proof.
  intros Hz Hin Hd Ha.
  apply list_elem_of_split in Hin as (r1 & r2 & ->).
  destruct (addEntries_split _ _ _ _ _ Hz) as (z1 & z2 & _ & Hf & H2).
  unfold addEntry in Hf. rewrite Hd in Hf.
  destruct (populate _ _ _ _) as [d'|] eqn:Hp; simpl in Hf; [| done].
  injection Hf as <-.
  destruct (populate_visits _ _ _ _ _ _ Hp Ha) as (l & Hl & _).
  apply (addEntries_keys_stay r2 _ z _ H2). simpl. by rewrite Hl.
Qed.

(** X7. Every directory above a regular member opens as a directory: when the
    normalised form of a path is one of the directories the ancestor loop
    visits for the member, not the root, and no regular member has that
    name, [Open] returns the handle of that directory. *)
Theorem newZipFS_ancestor_opens r z f p :
  newZipFS r = Some z → f ∈ r → zip.IsDir f = false →
  openName p ∈ ancestors (S (String.length (entryName f)))
                         (parentDir (entryName f)) →
  openName p ≠ "" → files z !! openName p = None →
  Open z p = inr (dirHandle z (openName p +:+ "/")).
Proof.
  intros Hz Hin Hd Ha Hne Hfiles.
  pose proof (newZipFS_ancestor_key r z f _ Hz Hin Hd Ha) as Hkey.
  rewrite ancestorKey_openName in Hkey by done.
  rewrite Open_unfold. cbv zeta.
  rewrite eqb_root_false, Hfiles; [| done | by eapply ancestors_not_dot].
  by destruct Hkey as [l ->].
Qed.

Lemma newZipFS_ancestor_opens_witness :
  newZipFS [fileMember "x/y/z.txt" hello]
  = Some (mkZipFS {[ "x/y/z.txt" := fileMember "x/y/z.txt" hello ]}
            (<["" := ["z.txt"]]> (<["x/" := ["z.txt"]]>
               {[ "x/y/" := ["z.txt"] ]})))
  ∧ openName "/x/" ∈ ancestors
      (S (String.length (entryName (fileMember "x/y/z.txt" hello))))
      (parentDir (entryName (fileMember "x/y/z.txt" hello)))
  ∧ Open (mkZipFS {[ "x/y/z.txt" := fileMember "x/y/z.txt" hello ]}
            (<["" := ["z.txt"]]> (<["x/" := ["z.txt"]]>
               {[ "x/y/" := ["z.txt"] ]}))) "/x/"
    = inr (dirHandle
             (mkZipFS {[ "x/y/z.txt" := fileMember "x/y/z.txt" hello ]}
                (<["" := ["z.txt"]]> (<["x/" := ["z.txt"]]>
                   {[ "x/y/" := ["z.txt"] ]})))
             (openName "/x/" +:+ "/")).
Proof.
  split; [vm_compute; reflexivity |].
  split; [vm_compute; apply list_elem_of_further, list_elem_of_here |].
  apply (newZipFS_ancestor_opens [fileMember "x/y/z.txt" hello] _
           (fileMember "x/y/z.txt" hello)).
  - vm_compute. reflexivity.
  - apply list_elem_of_here.
  - reflexivity.
  - vm_compute. apply list_elem_of_further, list_elem_of_here.
  - vm_compute. discriminate.
  - vm_compute. reflexivity.
Defined.

(** X8. A directory member opens as a directory, even when nothing is in it:
    when its normalised name is not the root and no regular member has
    that name, [Open] of the member's name returns the handle of the
    directory. *)
Theorem newZipFS_directory_opens r z g :
  newZipFS r = Some z → g ∈ r → zip.IsDir g = true →
  openName (zip.Name g) ≠ "" → openName (zip.Name g) ≠ "." →
  files z !! openName (zip.Name g) = None →
  Open z (zip.Name g) = inr (dirHandle z (openName (zip.Name g) +:+ "/")).
Proof.
  intros Hz Hin Hd Hn1 Hn2 Hfiles.
  assert (is_Some (dirs z !! (openName (zip.Name g) +:+ "/"))) as [l Hl].
  { apply list_elem_of_split in Hin as (r1 & r2 & ->).
    destruct (addEntries_split _ _ _ _ _ Hz) as (z1 & z2 & _ & Hg & H2).
    apply (addEntries_keys_stay r2 _ z _ H2).
    unfold addEntry in Hg. rewrite Hd in Hg. injection Hg as <-. simpl.
    rewrite entryName_openName. unfold strings.TrimSuffix.
    rewrite openName_no_trailing_slash. by rewrite lookup_insert_eq. }
  rewrite Open_unfold. cbv zeta. by rewrite eqb_root_false, Hfiles, Hl.
Qed.

Lemma newZipFS_directory_opens_witness :
  newZipFS [dirMember "empty/"]
  = Some (mkZipFS ∅ {[ "empty/" := [] ]})
  ∧ Open (mkZipFS ∅ {[ "empty/" := [] ]}) (zip.Name (dirMember "empty/"))
    = inr (dirHandle (mkZipFS ∅ {[ "empty/" := [] ]})
             (openName (zip.Name (dirMember "empty/")) +:+ "/"))
  ∧ dirHandle (mkZipFS ∅ {[ "empty/" := [] ]})
      (openName (zip.Name (dirMember "empty/")) +:+ "/")
    = zipHTTPFile.mk true "empty/" [] None None (Some []).
Proof.
  split; [vm_compute; reflexivity |].
  split; [| vm_compute; reflexivity].
  apply (newZipFS_directory_opens [dirMember "empty/"] _ (dirMember "empty/")).
  - vm_compute. reflexivity.
  - apply list_elem_of_here.
  - reflexivity.
  - vm_compute. discriminate.
  - vm_compute. discriminate.
  - vm_compute. reflexivity.
Defined.

(** ** Cleaning a clean path *)

Lemma cleanStep_real rooted out e :
  realElement e → path.cleanStep rooted out e = e :: out.
Proof.
  intros [(Hne & Hdot & _) Hdd]. unfold path.cleanStep.
  destruct (String.eqb_spec e ""); [done |].
  destruct (String.eqb_spec e "."); [done |]. simpl.
  by destruct (String.eqb_spec e "..").
Qed.

Lemma fold_cleanStep_reals rooted reals out :
  Forall realElement reals →
  fold_left (path.cleanStep rooted) reals out = rev reals ++ out.
Proof.
  revert out. induction reals as [|e l IH]; intros out Hl; simpl; [done |].
  inversion Hl; subst. rewrite cleanStep_real, IH by done.
  by rewrite <- (assoc_L (++)).
Qed.

Lemma fold_cleanStep_dots k j :
  fold_left (path.cleanStep false) (replicate k "..") (replicate j "..")
  = replicate (k + j)%nat "..".
Proof.
  revert j. induction k as [|k IH]; intros j; simpl; [done |].
  replace (path.cleanStep false (replicate j "..") "..")
    with (replicate (S j) "..").
  - rewrite IH. by replace (k + S j)%nat with (S (k + j))%nat by lia.
  - by destruct j.
Qed.

Lemma rev_replicate {A} k (x : A) : rev (replicate k x) = replicate k x.
Proof.
  induction k as [|k IH]; simpl; [done |].
  rewrite IH. clear IH. induction k as [|k IH]; simpl; [done |].
  by rewrite IH.
Qed.

Lemma fold_cleanStep_cleanShape l :
  cleanShape l → rev (fold_left (path.cleanStep false) l []) = l.
Proof.
  intros (k & reals & -> & Hr).
  rewrite fold_left_app.
  change (@nil string) with (replicate 0 "..") at 1.
  rewrite (fold_cleanStep_dots k 0), Nat.add_0_r.
  rewrite fold_cleanStep_reals by done.
  by rewrite rev_app_distr, rev_involutive, rev_replicate.
Qed.

Lemma elements_no_slash e : hasSlash e = false → path.elements e = [e].
Proof.
  induction e as [|c e IH]; simpl; [done |].
  intros [Hc He]%orb_false_iff. rewrite Hc, IH; done.
Qed.

Lemma elements_app_slash_cons e s :
  hasSlash e = false →
  path.elements (e +:+ "/" +:+ s) = e :: path.elements s.
Proof.
  induction e as [|c e IH]; [done |].
  intros [Hc He]%orb_false_iff. rewrite append_cons. simpl.
  rewrite Hc, IH; done.
Qed.

Lemma elements_joinElements l :
  l ≠ [] → Forall (λ e, hasSlash e = false) l →
  path.elements (path.joinElements l) = l.
Proof.
  induction l as [|e l IH]; [done | intros _ Hl].
  inversion Hl; subst. rewrite joinElements_cons.
  destruct l as [|e' l]; [by apply elements_no_slash |].
  rewrite elements_app_slash_cons, IH; done.
Qed.

Lemma cleanShape_element l : cleanShape l → Forall element l.
Proof.
  intros (k & reals & -> & Hr). apply Forall_app. split.
  - apply Forall_forall. intros x Hx%elem_of_replicate. destruct Hx as [-> _].
    by repeat split.
  - eapply Forall_impl; [done |]. by intros x [Hx _].
Qed.

(** [Clean] leaves the join of a cleaned list of elements as it is. *)
Lemma Clean_joinElements l :
  l ≠ [] → cleanShape l →
  path.Clean (path.joinElements l) = path.joinElements l.
Proof.
  intros Hne Hs. pose proof (cleanShape_element l Hs) as Hel.
  destruct (joinElements_shape l Hel Hne) as [_ (c & s & Heq & Hc)].
  unfold path.Clean, path.cleanElements.
  rewrite elements_joinElements; [| done |].
  - rewrite Heq. cbn [String.eqb]. rewrite HasPrefix_slash, Hc.
    rewrite fold_cleanStep_cleanShape by done. by rewrite Heq.
  - eapply Forall_impl; [done |]. by intros x (_ & _ & Hx).
Qed.

Lemma cleanStep_outShape rooted out e :
  hasSlash e = false → outShape out → outShape (path.cleanStep rooted out e).
Proof.
  intros He (k & reals & -> & Hr). unfold path.cleanStep.
  destruct (String.eqb_spec e ""); [by exists k, reals |].
  destruct (String.eqb_spec e "."); [by exists k, reals |]. simpl.
  destruct (String.eqb_spec e "..") as [-> | Hdd].
  - destruct reals as [|top reals'].
    + simpl. destruct k as [|k]; simpl.
      * destruct rooted; [by exists 0%nat, [] | by exists 1%nat, []].
      * destruct rooted; [by exists (S k), [] | by exists (S (S k)), []].
    + simpl. inversion Hr as [|? ? [_ Htop] Hr']; subst.
      destruct (String.eqb_spec top ".."); [done |]. by exists k, reals'.
  - exists k, (e :: reals). split; [done |]. constructor; [| done].
    by repeat split.
Qed.

Lemma cleanElements_cleanShape rooted p :
  cleanShape (path.cleanElements rooted p).
Proof.
  unfold path.cleanElements.
  assert (outShape (fold_left (path.cleanStep rooted) (path.elements p) []))
    as (k & reals & -> & Hr).
  { pose proof (elements_hasSlash p) as Hel.
    assert (outShape []) as H0 by (by exists 0%nat, []).
    revert H0. generalize (@nil string).
    induction Hel as [|e l He Hl IH]; intros out Hout; simpl; [done |].
    apply IH. by apply cleanStep_outShape. }
  exists k, (rev reals). rewrite rev_app_distr, rev_replicate.
  split; [done |]. by apply Forall_rev.
Qed.

(** What [openName] returns: the root, or the join of a cleaned list. *)
Lemma openName_cases p :
  openName p = "" ∨ openName p = "."
  ∨ ∃ l, l ≠ [] ∧ cleanShape l ∧ openName p = path.joinElements l.
Proof.
  unfold openName, path.Clean.
  destruct (String.eqb p "") eqn:Hp; [by right; left |].
  pose proof (cleanElements_cleanShape (strings.HasPrefix p "/") p) as Hs.
  destruct (strings.HasPrefix p "/").
  - rewrite !append_slash. cbn [String.eqb Ascii.eqb].
    rewrite TrimPrefix_slash. change (Ascii.eqb "/" "/") with true. cbv iota.
    destruct (path.cleanElements true p) as [|e l] eqn:El; [by left |].
    right. right. by exists (e :: l).
  - destruct (path.cleanElements false p) as [|e l] eqn:El;
      [by right; left |].
    destruct (joinElements_shape (e :: l) (cleanShape_element _ Hs)
                ltac:(done)) as [_ (c & s & Heq & Hc)].
    right. right. exists (e :: l). split; [done |]. split; [done |].
    rewrite Heq. cbn [String.eqb]. by rewrite TrimPrefix_slash, Hc.
Qed.

(** Normalising twice is normalising once, up to the two names of the
    root. *)
Lemma openName_idempotent p :
  openName p ≠ "" → openName (openName p) = openName p.
Proof.
  intros Hne. destruct (openName_cases p) as [H | [H | (l & Hl & Hs & H)]];
    [done | by rewrite H |].
  rewrite H. unfold openName. rewrite Clean_joinElements by done.
  destruct (joinElements_shape l (cleanShape_element _ Hs) Hl)
    as [_ (c & s & Heq & Hc)].
  by rewrite Heq, TrimPrefix_slash, Hc.
Qed.

(** ** Taking a clean path apart and joining it again *)


Lemma append_nil_r a : a +:+ "" = a.
Proof.
  induction a as [|x a IH]; [done |]. by rewrite append_cons, IH.
Qed.














Lemma TrimSuffix_app_slash s : strings.TrimSuffix (s +:+ "/") "/" = s.
Proof.
  by rewrite TrimSuffix_slash, endsWithSlash_snoc, dropLast_snoc.
Qed.




(** ** Opening what was normalised, and listing what was indexed *)

(** X11. [Open] of the normalised form of a path returns what [Open] of the
    path returns. *)
Theorem Open_normalised z p : Open z (openName p) = Open z p.
Proof.
  destruct (String.eqb_spec (openName p) "") as [He | Hne].
  - unfold Open. cbv zeta. rewrite He. reflexivity.
  - unfold Open. cbv zeta. by rewrite openName_idempotent.
Qed.




Lemma Open_file_is_member_witness :
  newZipFS [fileMember "a/b.txt" hello] = Some sampleFS
  ∧ Open sampleFS "/a/../a/b.txt"
    = inr (zipHTTPFile.mk false "b.txt" hello None
             (Some (HeaderInfo (fileMember "a/b.txt" hello))) None)
  ∧ ∃ f, f ∈ [fileMember "a/b.txt" hello] ∧ zip.IsDir f = false
         ∧ openName (zip.Name f) = openName "/a/../a/b.txt"
         ∧ zip.openErr f = None ∧ zip.copyErr f = None
         ∧ zipHTTPFile.data
             (zipHTTPFile.mk false "b.txt" hello None
                (Some (HeaderInfo (fileMember "a/b.txt" hello))) None)
           = zip.body f
         ∧ zipHTTPFile.Stat
             (zipHTTPFile.mk false "b.txt" hello None
                (Some (HeaderInfo (fileMember "a/b.txt" hello))) None)
           = (Some (HeaderInfo f), None).
Proof.
  split; [vm_compute; reflexivity |].
  split; [vm_compute; reflexivity |].
  apply (Open_file_is_member [fileMember "a/b.txt" hello] sampleFS
           "/a/../a/b.txt");
    vm_compute; reflexivity.
Defined.

Lemma newZipFS_Open_member_witness :
  newZipFS ([fileMember "a/b.txt" []] ++ fileMember "./a//b.txt" hello :: [])
  = Some (mkZipFS {[ "a/b.txt" := fileMember "./a//b.txt" hello ]}
            (<["" := ["b.txt"; "b.txt"]]> {[ "a/" := ["b.txt"; "b.txt"] ]}))
  ∧ Open (mkZipFS {[ "a/b.txt" := fileMember "./a//b.txt" hello ]}
            (<["" := ["b.txt"; "b.txt"]]> {[ "a/" := ["b.txt"; "b.txt"] ]}))
         (zip.Name (fileMember "./a//b.txt" hello))
    = inr (zipHTTPFile.mk false
             (path.Base (openName (zip.Name (fileMember "./a//b.txt" hello))))
             (zip.body (fileMember "./a//b.txt" hello)) None
             (Some (HeaderInfo (fileMember "./a//b.txt" hello))) None).
Proof.
  split; [vm_compute; reflexivity |].
  apply (newZipFS_Open_member [fileMember "a/b.txt" []]
           (fileMember "./a//b.txt" hello) []);
    solve [vm_compute; reflexivity | vm_compute; discriminate | constructor].
Defined.

(** ** Where the keys of [dirs] come from, and that they open *)

Lemma populate_lookup_origin fuel name dir d d' k :
  populate fuel name dir d = Some d' → is_Some (d' !! k) →
  is_Some (d !! k) ∨ ∃ a, a ∈ ancestors fuel dir ∧ ancestorKey a = k.
Proof.
  revert dir d. induction fuel as [|fuel IH]; intros dir d Hp Hk; [done |].
  simpl in Hp. cbn [ancestors].
  set (d1 := <[ancestorKey dir := _]> d) in Hp.
  assert (is_Some (d1 !! k) → is_Some (d !! k) ∨ ancestorKey dir = k) as H1.
  { unfold d1. destruct (decide (ancestorKey dir = k)) as [<- | Hne].
    - by right.
    - rewrite lookup_insert_ne by done. by left. }
  destruct (_ || _).
  - injection Hp as <-. destruct (H1 Hk) as [H | H]; [by left | right].
    exists dir. split; [apply list_elem_of_here | done].
  - destruct (IH _ _ Hp Hk) as [H | (a & Ha & Hka)].
    + destruct (H1 H) as [H' | H']; [by left | right].
      exists dir. split; [apply list_elem_of_here | done].
    + right. exists a. split; [by apply list_elem_of_further | done].
Qed.

Lemma keyOrigin_cons g r k : keyOrigin r k → keyOrigin (g :: r) k.
Proof.
  intros [(g' & Hin & H) | (f & a & Hin & H)].
  - left. exists g'. split; [by apply list_elem_of_further | done].
  - right. exists f, a. split; [by apply list_elem_of_further | done].
Qed.

Lemma addEntries_key_origin r z z' k :
  addEntries z r = Some z' → is_Some (dirs z' !! k) →
  is_Some (dirs z !! k) ∨ keyOrigin r k.
Proof.
  revert z. induction r as [|g r IH]; intros z Hadd Hk; simpl in Hadd.
  - injection Hadd as <-. by left.
  - destruct (addEntry z g) as [z1|] eqn:Hg; [| done]. simpl in Hadd.
    destruct (IH z1 Hadd Hk) as [H | H]; [| right; by apply keyOrigin_cons].
    unfold addEntry in Hg. destruct (zip.IsDir g) eqn:Hd.
    + injection Hg as <-. simpl in H.
      destruct (decide (directoryKey g = k)) as [Heq | Hne].
      * right. left. exists g. split; [apply list_elem_of_here | done].
      * unfold directoryKey in Hne. rewrite lookup_insert_ne in H by done.
        by left.
    + destruct (populate _ _ _ _) as [d'|] eqn:Hp; simpl in Hg; [| done].
      injection Hg as <-. simpl in H.
      destruct (populate_lookup_origin _ _ _ _ _ _ Hp H) as [H' | (a & Ha & Hka)];
        [by left |].
      right. right. exists g, a. split; [apply list_elem_of_here | done].
Qed.

Lemma newZipFS_key_origin r z k :
  newZipFS r = Some z → is_Some (dirs z !! k) → keyOrigin r k.
Proof.
  intros Hz Hk. destruct (addEntries_key_origin r _ z k Hz Hk) as [H | H];
    [| done].
  simpl in H. rewrite lookup_empty in H. by destruct H.
Qed.

(** Paths that do not start with a slash. *)
Lemma Clean_relative q :
  strings.HasPrefix q "/" = false →
  openName q = path.Clean q ∧ strings.HasPrefix (path.Clean q) "/" = false.
Proof.
  intros Hq.
  assert (strings.HasPrefix (path.Clean q) "/" = false) as H.
  { unfold path.Clean. destruct (String.eqb q ""); [done |]. rewrite Hq.
    pose proof (cleanElements_element false q) as Hel.
    destruct (path.cleanElements false q) as [|e l] eqn:El; [reflexivity |].
    destruct (joinElements_shape (e :: l) Hel ltac:(done))
      as [_ (c & s & Heq & Hc)].
    rewrite Heq. cbn [String.eqb]. by rewrite HasPrefix_slash. }
  split; [| done]. unfold openName, strings.TrimPrefix. by rewrite H.
Qed.

Lemma Clean_not_empty q : path.Clean q ≠ "".
Proof.
  unfold path.Clean. cbv zeta. destruct (String.eqb q ""); [done |].
  match goal with
  | |- context [String.eqb ?x ""] => by destruct (String.eqb_spec x "")
  end.
Qed.

Lemma dirPrefix_relative y :
  strings.HasPrefix y "/" = false → strings.HasPrefix (dirPrefix y) "/" = false.
Proof.
  destruct y as [|c y]; [done |]. rewrite HasPrefix_slash. intros Hc.
  change (dirPrefix (String c y))
    with (if hasSlash (String c y) then String c (dirPrefix y) else "").
  destruct (hasSlash (String c y)); [by rewrite HasPrefix_slash | done].
Qed.

Lemma parentDir_relative y :
  strings.HasPrefix y "/" = false →
  strings.HasPrefix (parentDir y) "/" = false
  ∧ (parentDir y = "" ∨ openName (parentDir y) = parentDir y).
Proof.
  intros Hy. unfold parentDir, path.Dir. rewrite Split_dirPrefix.
  destruct (Clean_relative (dirPrefix y) (dirPrefix_relative y Hy))
    as [Hopen Hrel].
  destruct (String.eqb (path.Clean (dirPrefix y)) "."); [by split; [| left] |].
  split; [done | right]. rewrite <- Hopen.
  apply openName_idempotent. rewrite Hopen. apply Clean_not_empty.
Qed.

Lemma ancestors_normalised fuel y a :
  strings.HasPrefix y "/" = false → a ∈ ancestors fuel (parentDir y) →
  a = "" ∨ openName a = a.
Proof.
  revert y. induction fuel as [|fuel IH]; intros y Hy Ha; simpl in Ha;
    [by apply elem_of_nil in Ha |].
  destruct (parentDir_relative y Hy) as [Hrel Hnorm].
  apply elem_of_cons in Ha as [-> | Ha]; [done |].
  destruct (_ || _); [by apply elem_of_nil in Ha | by apply (IH _ Hrel)].
Qed.

(** Every key of [dirs] is the normalised name of a directory followed by
    a slash, the root key apart. *)
Lemma newZipFS_key_normalised r z k :
  newZipFS r = Some z → is_Some (dirs z !! k) →
  k = "" ∨ ∃ n, k = n +:+ "/" ∧ (n = "" ∨ openName n = n).
Proof.
  intros Hz Hk.
  destruct (newZipFS_key_origin r z k Hz Hk)
    as [(g & _ & _ & <-) | (f & a & _ & _ & Ha & <-)].
  - right. exists (entryName g). unfold directoryKey.
    rewrite entryName_openName. unfold strings.TrimSuffix.
    rewrite openName_no_trailing_slash. split; [done |].
    destruct (String.eqb_spec (openName (zip.Name g)) ""); [by left |].
    right. by apply openName_idempotent.
  - rewrite entryName_openName in Ha.
    pose proof (ancestors_normalised _ _ _
                  (openName_no_leading_slash (zip.Name f)) Ha) as [-> | Hn].
    { by left. }
    right. exists a. split; [| by right].
    destruct (String.eqb_spec a "") as [-> | Hne]; [done |].
    rewrite <- Hn. apply ancestorKey_openName. by rewrite Hn.
Qed.

(** X9. Every key of [dirs] opens as the directory of that key, unless the key
    stands for the root ([""], ["/"], ["./"]) or a regular member has the
    name of the directory. *)
Theorem newZipFS_dirs_key_opens r z k :
  newZipFS r = Some z → is_Some (dirs z !! k) →
  k ≠ "" → k ≠ "/" → k ≠ "./" →
  files z !! strings.TrimSuffix k "/" = None →
  Open z k = inr (dirHandle z k).
Proof.
  intros Hz Hk Hk0 Hk1 Hk2 Hfiles.
  destruct (newZipFS_key_normalised r z k Hz Hk) as [-> | (n & -> & Hn)];
    [done |].
  rewrite TrimSuffix_app_slash in Hfiles.
  destruct Hn as [-> | Hn]; [done |].
  assert (n ≠ "") as Hne by (by intros ->).
  assert (n ≠ ".") as Hnd by (by intros ->).
  assert (openName (n +:+ "/") = n) as Hopen.
  { unfold openName in *. by rewrite Clean_app_slash. }
  rewrite Open_unfold. cbv zeta.
  rewrite Hopen, eqb_root_false, Hfiles by done.
  by destruct Hk as [l ->].
Qed.

Lemma newZipFS_dirs_key_opens_witness :
  newZipFS [fileMember "a/b.txt" hello] = Some sampleFS
  ∧ is_Some (dirs sampleFS !! "a/")
  ∧ Open sampleFS "a/" = inr (dirHandle sampleFS "a/").
Proof.
  split; [vm_compute; reflexivity |]. split; [by eexists |].
  apply (newZipFS_dirs_key_opens [fileMember "a/b.txt" hello] sampleFS "a/");
    solve [vm_compute; reflexivity | by eexists | discriminate].
Defined.

(** X10. No directory out of nothing: every key of [dirs] is the key of a
    directory member or the key of a directory the ancestor loop visits
    for a regular member; so a path opens as a directory other than the
    root only if a member of the archive accounts for it. *)
Theorem Open_directory_has_origin r z p h :
  newZipFS r = Some z → Open z p = inr h → zipHTTPFile.isDir h = true →
  zipHTTPFile.name h = ""
  ∨ (zipHTTPFile.name h = openName p +:+ "/"
     ∧ ((∃ g, g ∈ r ∧ zip.IsDir g = true
              ∧ directoryKey g = zipHTTPFile.name h)
        ∨ (∃ f a, f ∈ r ∧ zip.IsDir f = false
                  ∧ a ∈ ancestors (S (String.length (entryName f)))
                                  (parentDir (entryName f))
                  ∧ ancestorKey a = zipHTTPFile.name h))).
Proof.
  intros Hz. rewrite Open_unfold. cbv zeta.
  destruct (String.eqb (openName p) "." || String.eqb (openName p) "").
  { intros [= <-] _. by left. }
  destruct (files z !! openName p) as [f|].
  { destruct (zip.openErr f); [done |]. destruct (zip.copyErr f); [done |].
    by intros [= <-]. }
  destruct (dirs z !! (openName p +:+ "/")) as [l|] eqn:Hl; [| done].
  intros [= <-] _. right. split; [done |].
  apply (newZipFS_key_origin r z); [done |]. simpl. by rewrite Hl.
Qed.

Lemma Open_directory_has_origin_witness :
  newZipFS [fileMember "a/b.txt" hello] = Some sampleFS
  ∧ Open sampleFS "a" = inr (dirHandle sampleFS "a/")
  ∧ (zipHTTPFile.name (dirHandle sampleFS "a/") = ""
     ∨ (zipHTTPFile.name (dirHandle sampleFS "a/") = openName "a" +:+ "/"
        ∧ ((∃ g, g ∈ [fileMember "a/b.txt" hello] ∧ zip.IsDir g = true
                 ∧ directoryKey g = zipHTTPFile.name (dirHandle sampleFS "a/"))
           ∨ (∃ f a, f ∈ [fileMember "a/b.txt" hello] ∧ zip.IsDir f = false
                     ∧ a ∈ ancestors (S (String.length (entryName f)))
                                     (parentDir (entryName f))
                     ∧ ancestorKey a
                       = zipHTTPFile.name (dirHandle sampleFS "a/"))))).
Proof.
  split; [vm_compute; reflexivity |]. split; [vm_compute; reflexivity |].
  apply (Open_directory_has_origin [fileMember "a/b.txt" hello] sampleFS "a"
           (dirHandle sampleFS "a/")); vm_compute; reflexivity.
Defined.

(** X4. A stored file is served under its key, unless the key is a name of the
    root: every key of [files] other than [""] and ["."] is its own
    normalised form, and [Open] of the key returns the handle of the file
    stored there when its content can be read; under [""] or ["."] [Open]
    returns the root directory, whatever [files] holds. *)
Theorem newZipFS_files_key_served r z k f :
  newZipFS r = Some z → files z !! k = Some f →
  zip.openErr f = None → zip.copyErr f = None →
  (k ≠ "" → k ≠ "." →
   openName k = k
   ∧ Open z k = inr (zipHTTPFile.mk false (path.Base k) (zip.body f) None
                       (Some (HeaderInfo f)) None))
  ∧ (k = "" ∨ k = "." → Open z k = inr (dirHandle z "")).
Proof.
  intros Hz Hk Ho Hc. split.
  - intros Hn1 Hn2.
    destruct (newZipFS_files_sound r z k f Hz Hk) as (_ & _ & Hname).
    assert (openName k = k) as Hnorm.
    { rewrite <- Hname, entryName_openName. apply openName_idempotent.
      by rewrite <- entryName_openName, Hname. }
    split; [done |]. rewrite Open_unfold. cbv zeta.
    by rewrite Hnorm, eqb_root_false, Hk, Ho, Hc.
  - by intros [-> | ->].
Qed.

Lemma newZipFS_files_key_served_witness :
  newZipFS [fileMember "a/b.txt" hello] = Some sampleFS
  ∧ files sampleFS !! "a/b.txt" = Some (fileMember "a/b.txt" hello)
  ∧ ("a/b.txt" ≠ "" → "a/b.txt" ≠ "." →
     openName "a/b.txt" = "a/b.txt"
     ∧ Open sampleFS "a/b.txt"
       = inr (zipHTTPFile.mk false (path.Base "a/b.txt")
                (zip.body (fileMember "a/b.txt" hello)) None
                (Some (HeaderInfo (fileMember "a/b.txt" hello))) None))
  ∧ ("a/b.txt" = "" ∨ "a/b.txt" = "." →
     Open sampleFS "a/b.txt" = inr (dirHandle sampleFS "")).
Proof.
  split; [vm_compute; reflexivity |]. split; [vm_compute; reflexivity |].
  apply (newZipFS_files_key_served [fileMember "a/b.txt" hello] sampleFS
           "a/b.txt" (fileMember "a/b.txt" hello)); vm_compute; reflexivity.
Defined.

(** ** File modes *)

(** X19. The mode of a [zipFileInfo] agrees with its [IsDir], fits the 32 bits
    of a file mode, grants no write permission to anyone, and grants read
    permission to everyone. *)
Theorem zipFileInfo_Mode_read_only i :
  FileMode_IsDir (ZipFileInfo.Mode i) = ZipFileInfo.IsDir i
  ∧ 0 <= ZipFileInfo.Mode i < 2 ^ 32
  ∧ Z.land (FileMode_Perm (ZipFileInfo.Mode i)) 146 = 0
  ∧ Z.land (FileMode_Perm (ZipFileInfo.Mode i)) 292 = 292.
Proof.
  unfold ZipFileInfo.Mode, ZipFileInfo.IsDir.
  destruct (zipFileInfo.isDir i); vm_compute; repeat split; discriminate.
Qed.
